(** * TargetBuy: option pricing and day processing (TargetBuyPBR.py)

    A shallow embedding of the core of [TargetBuyPBR.py].

    - [Module Pricing]: [bs_call_price], [bs_put_price] and
      [implied_vol_put].  The Python floats of these three functions are
      read as real numbers, [math.log], [math.exp], [math.sqrt] as [ln],
      [exp], [sqrt], and [scipy.stats.norm.cdf] as the standard normal
      distribution function; rounding, overflow and NaN are not part of
      this module.
    - [Module Day]: [get_stock_price_from_yf] and [process_one_day], over
      binary64 floats (the arithmetic of the day processor is [*], [-],
      [abs], [/] and comparisons, which binary64 decides), with the pricing
      engine called through its signature.
    - [Module PricingFacts], [Module FloatOrder], [Module DayFacts]: the
      properties. *)

From Stdlib Require Import Floats ZArith List String Ascii Bool PeanoNat.
From Stdlib Require Import Reals Ranalysis5 Lra Lia.
From Stdlib Require Import ClassicalEpsilon Sorted.
Import ListNotations.
Set Warnings "-inexact-float".

(** ** Exceptions of the Python code, as values *)

Inductive exn : Type :=
  | ValueError | TypeError | RuntimeError | OverflowError | ZeroDivisionError
  | IndexError.

Inductive result (A : Type) : Type :=
  | Ok (a : A)
  | Raise (e : exn).
Arguments Ok {A} a.
Arguments Raise {A} e.

(** ** The pricing engine *)

Module Pricing.

Local Open Scope R_scope.

(** *** The standard normal distribution function [norm.cdf] *)

(** Density of the standard normal law. *)
Definition gauss (t : R) : R := exp (- (t * t) / 2) / sqrt (2 * PI).

Lemma gauss_derivable : derivable gauss.
Proof. unfold gauss. reg. Qed.

Lemma gauss_continuity : continuity gauss.
Proof. apply derivable_continuous, gauss_derivable. Qed.

Lemma gauss_integrable (a b : R) : Riemann_integrable gauss a b.
Proof.
  destruct (Rle_dec a b) as [Hab | Hab].
  - apply continuity_implies_RiemannInt; [exact Hab | intros; apply gauss_continuity].
  - apply RiemannInt_P1, continuity_implies_RiemannInt; [lra | intros; apply gauss_continuity].
Qed.

(** [gauss_int x] is the integral of the density from 0 to x. *)
Definition gauss_int (x : R) : R := RiemannInt (gauss_integrable 0 x).

(** [norm.cdf]: the distribution function of the standard normal law. *)
Definition norm_cdf (x : R) : R := 1 / 2 + gauss_int x.

(** *** Black-Scholes values (lines 58-70) *)

(** The domain guard [S <= 0 or K <= 0 or T <= 0 or sigma <= 0], evaluated
    left to right. *)
Definition guard (S K T sigma : R) : bool :=
  if Rle_dec S 0 then true
  else if Rle_dec K 0 then true
  else if Rle_dec T 0 then true
  else if Rle_dec sigma 0 then true
  else false.

Definition d1 (S K T r sigma : R) : R :=
  (ln (S / K) + (r + 0.5 * sigma ^ 2) * T) / (sigma * sqrt T).

Definition d2 (S K T r sigma : R) : R :=
  d1 S K T r sigma - sigma * sqrt T.

Definition bs_call_price (S K T r sigma : R) : option R :=
  if guard S K T sigma then None
  else
    let d1 := (ln (S / K) + (r + 0.5 * sigma ^ 2) * T) / (sigma * sqrt T) in
    let d2 := d1 - sigma * sqrt T in
    Some (S * norm_cdf d1 - K * exp (- r * T) * norm_cdf d2).

Definition bs_put_price (S K T r sigma : R) : option R :=
  if guard S K T sigma then None
  else
    let d1 := (ln (S / K) + (r + 0.5 * sigma ^ 2) * T) / (sigma * sqrt T) in
    let d2 := d1 - sigma * sqrt T in
    Some (K * exp (- r * T) * norm_cdf (- d2) - S * norm_cdf (- d1)).

(** The value computed by [bs_put_price] past its guard, as a real function. *)
Definition put_value (S K T r sigma : R) : R :=
  K * exp (- r * T) * norm_cdf (- d2 S K T r sigma)
  - S * norm_cdf (- d1 S K T r sigma).

(** *** Implied volatility (lines 72-79) *)

(** The function handed to the root finder:
    [lambda sigma: bs_put_price(S, K, T, r, sigma) - market_price].
    Subtracting from [None] raises [TypeError]. *)
Definition objective (S K T r market_price : R) (sigma : R) : result R :=
  match bs_put_price S K T r sigma with
  | Some p => Ok (p - market_price)
  | None => Raise TypeError
  end.

Definition sigma_lo : R := 0.0001.
Definition sigma_hi : R := 3.0.

(** [scipy.optimize.brentq] is library code; over the reals it is described
    by its contract: an exception of the function (at an end point) is
    passed on, end points of equal strict sign are refused with an
    exception, a returned point lies in the bracket and is a root, and on a
    continuous function with a sign change a root is returned. *)
Record brentq_contract (brentq : (R -> result R) -> R -> R -> result R) : Prop := {
  brentq_propagates : forall f a b e,
    f a = Raise e \/ f b = Raise e -> exists e', brentq f a b = Raise e';
  brentq_same_sign : forall f a b fa fb,
    f a = Ok fa -> f b = Ok fb -> 0 < fa * fb ->
    exists e', brentq f a b = Raise e';
  brentq_root : forall f a b x,
    brentq f a b = Ok x -> a <= x <= b /\ f x = Ok 0;
  brentq_converges : forall f (g : R -> R) a b,
    a < b ->
    (forall x, a <= x <= b -> f x = Ok (g x)) ->
    (forall x, a <= x <= b -> continuity_pt g x) ->
    g a * g b <= 0 ->
    exists x, brentq f a b = Ok x
}.

Section ImpliedVol.

Variable brentq : (R -> result R) -> R -> R -> result R.

(** [try: return brentq(...) except Exception: return None] *)
Definition implied_vol_put (S K T r market_price : R) : option R :=
  match brentq (objective S K T r market_price) sigma_lo sigma_hi with
  | Ok sigma => Some sigma
  | Raise _ => None
  end.

End ImpliedVol.

(** A root finder that meets the contract: the exact one. *)
Definition brentq_exact (f : R -> result R) (a b : R) : result R :=
  match f a, f b with
  | Ok fa, Ok fb =>
      if Rlt_dec 0 (fa * fb) then Raise ValueError
      else
        match excluded_middle_informative
                (exists x, a <= x <= b /\ f x = Ok 0) with
        | left H => Ok (proj1_sig (constructive_indefinite_description _ H))
        | right _ => Raise RuntimeError
        end
  | Raise e, _ => Raise e
  | Ok _, Raise e => Raise e
  end.

(** *** The Black-Scholes formulas as the specification writes them *)

Definition spec_d1 (S K T r sigma : R) : R :=
  (ln (S / K) + (r + sigma * sigma / 2) * T) / (sigma * sqrt T).

Definition spec_d2 (S K T r sigma : R) : R :=
  spec_d1 S K T r sigma - sigma * sqrt T.

Definition black_scholes_call (S K T r sigma : R) : R :=
  S * norm_cdf (spec_d1 S K T r sigma)
  - K * exp (- (r * T)) * norm_cdf (spec_d2 S K T r sigma).

Definition black_scholes_put (S K T r sigma : R) : R :=
  K * exp (- (r * T)) * norm_cdf (- spec_d2 S K T r sigma)
  - S * norm_cdf (- spec_d1 S K T r sigma).

End Pricing.

(** ** The day processor *)

Module Day.

(** *** Exceptions: sequencing and [try ... except] *)

Definition bind {A B : Type} (m : result A) (k : A -> result B) : result B :=
  match m with
  | Ok a => k a
  | Raise e => Raise e
  end.

Notation "x <- m ;; k" := (bind m (fun x => k))
  (at level 61, m at next level, right associativity).

(** [try: v = m  except: v = fallback] *)
Definition try_except {A : Type} (m : result A) (fallback : A) : A :=
  match m with
  | Ok a => a
  | Raise _ => fallback
  end.

(** *** Calendar dates and the next-month label (line 125) *)

Record date : Type := { year : nat; month : nat; day : nat }.

Definition is_leap (y : nat) : bool :=
  ((y mod 4 =? 0) && negb (y mod 100 =? 0)) || (y mod 400 =? 0).

Definition days_in_month (y m : nat) : nat :=
  match m with
  | 2 => if is_leap y then 29 else 28
  | 4 | 6 | 9 | 11 => 30
  | _ => 31
  end.

(** [trade_date + pd.DateOffset(months=1)]: the month is advanced, the year
    rolls over after December, the day is clipped to the new month. *)
Definition add_one_month (d : date) : date :=
  let m := month d + 1 in
  let y := if 12 <? m then year d + 1 else year d in
  let m := if 12 <? m then m - 12 else m in
  {| year := y; month := m; day := Nat.min (day d) (days_in_month y m) |}.

Definition digit (n : nat) : ascii := ascii_of_nat (48 + n mod 10).

(** [strftime("%Y%m")] for a four-digit year. *)
Definition strftime_Ym (d : date) : string :=
  String (digit (year d / 1000)) (String (digit (year d / 100))
  (String (digit (year d / 10)) (String (digit (year d))
  (String (digit (month d / 10)) (String (digit (month d)) EmptyString))))).

Definition next_month (trade_date : date) : string :=
  strftime_Ym (add_one_month trade_date).

(** [idx <= trade_date] on daily timestamps. *)
Definition date_leb (a b : date) : bool :=
  (year a <? year b)
  || ((year a =? year b)
      && ((month a <? month b) || ((month a =? month b) && (day a <=? day b)))).

(** *** Text *)

(** White space of [str.strip()] among the ASCII characters. *)
Definition is_space (c : ascii) : bool :=
  let n := nat_of_ascii c in
  ((9 <=? n) && (n <=? 13)) || ((28 <=? n) && (n <=? 32)).

Fixpoint lstrip (l : list ascii) : list ascii :=
  match l with
  | [] => []
  | c :: l' => if is_space c then lstrip l' else l
  end.

Definition strip (s : string) : string :=
  string_of_list_ascii (rev (lstrip (rev (lstrip (list_ascii_of_string s))))).

(** *** Cells and rows of the chain *)

(** A cell of the data frame: a number (a missing cell is NaN) or text. *)
Inductive cell : Type :=
  | Num (f : float)
  | Str (s : string).

(** A chain row, with the columns the day processor reads:
    商品コード, 限月 (both as text), 権利行使価格, コール終値, コールIV,
    プット終値, 原資産終値, 基準IV. *)
Record row : Type := {
  product_code : string;
  contract_month : string;
  strike_price : cell;
  call_close : cell;
  call_iv : cell;
  put_close : cell;
  underlying_close : cell;
  base_iv : cell
}.

(** 商品コード4桁: [df["商品コード"].astype(str).str[:4]] *)
Definition code4 (r : row) : string := substring 0 4 (product_code r).

(** One output record, field by field as appended at lines 183-188. *)
Record record : Type := {
  rec_trade_date_str : string;
  rec_code : string;
  rec_spot : float;
  rec_next_month : string;
  call_strike : float;
  call_price : cell;
  call_theo : option float;
  sigma_call : option float;
  put_strike : float;
  put_price : cell;
  put_theo : option float;
  put_iv : option float;
  asset_iv : cell
}.

(** A daily bar of the price history. *)
Record bar : Type := { bar_index : date; bar_close : float }.

Definition TARGET_CODES : list string :=
  ["7203"; "9432"; "9984"; "6758"; "8306"; "8035"; "6861"; "4502";
   "4063"; "6954"; "7974"; "6098"; "2413"; "2801"; "2914"; "3382";
   "5108"; "5401"; "5713"; "5802"; "6301"; "6501"; "6503"; "6594";
   "6702"; "6723"; "6752"; "6762"]%string.

(** *** Series.argmin and iloc *)

Local Open Scope float_scope.

(** numpy's argmin on values without NaN: the first position of the least. *)
Fixpoint argmin_from (best : float) (best_i i : nat) (l : list float) : nat :=
  match l with
  | [] => best_i
  | v :: l' =>
      if v <? best then argmin_from v i (S i) l'
      else argmin_from best best_i (S i) l'
  end.

Definition np_argmin (l : list float) : nat :=
  match l with
  | [] => 0%nat
  | v :: l' => argmin_from v 0 1 l'
  end.

Definition fill_inf (v : float) : float := if is_nan v then infinity else v.

(** [Series.argmin()] (skipna): NaN are passed over; on a series of NaN
    only, pandas 2 answers -1. *)
Definition series_argmin (l : list float) : Z :=
  if forallb is_nan l then (-1)%Z
  else Z.of_nat (np_argmin (map fill_inf l)).

(** [df.iloc[i]]: a negative position counts from the end. *)
Definition iloc {A : Type} (l : list A) (i : Z) : result A :=
  let n := Z.of_nat (List.length l) in
  let j := if (i <? 0)%Z then (n + i)%Z else i in
  if ((0 <=? j) && (j <? n))%Z then
    match nth_error l (Z.to_nat j) with
    | Some a => Ok a
    | None => Raise IndexError
    end
  else Raise IndexError.

(** Float division of Python. *)
Definition py_div (x y : float) : result float :=
  if y =? 0 then Raise ZeroDivisionError else Ok (x / y).

Section Processor.

(** [float(text)] and [pd.to_numeric(text)] on the text of a cell. *)
Variable float_of_str : string -> option float.
Variable numeric_of_str : string -> option float.

(** [ticker.history(start=trade_date - 10 days, end=trade_date + 1 day)]
    for a code and a trading date: the bars in time order, or an exception. *)
Variable yf_history : string -> date -> result (list bar).

(** The pricing engine, as the day processor calls it. *)
Variable bs_call_price bs_put_price :
  float -> float -> float -> float -> float -> result (option float).
Variable implied_vol_put :
  float -> float -> float -> float -> float -> result (option float).

(** [float(c)] *)
Definition py_float (c : cell) : result float :=
  match c with
  | Num f => Ok f
  | Str s =>
      match float_of_str s with
      | Some f => Ok f
      | None => Raise ValueError
      end
  end.

(** [pd.to_numeric(c, errors="coerce")] *)
Definition to_numeric (c : cell) : float :=
  match c with
  | Num f => f
  | Str s =>
      match numeric_of_str s with
      | Some f => f
      | None => nan
      end
  end.

(** Lines 29-52. *)
Definition get_stock_price_from_yf (code : string) (trade_date : date)
  : option float :=
  match yf_history code trade_date with
  | Raise _ => None
  | Ok [] => None
  | Ok hist =>
      match rev (filter (fun b => date_leb (bar_index b) trade_date) hist) with
      | [] => None
      | b :: _ => Some (bar_close b)
      end
  end.

(** [spot is None or spot <= 0] *)
Definition none_or_nonpositive (spot : option float) : bool :=
  match spot with
  | None => true
  | Some s => s <=? 0
  end.

(** Lines 110-120: the spot of an underlying, [None] for [continue]. *)
Definition resolve_spot (first : row) (code : string) (trade_date : date)
  : option float :=
  let spot :=
    try_except (s <- py_float (underlying_close first) ;; Ok (Some s)) None in
  let spot :=
    if none_or_nonpositive spot
    then get_stock_price_from_yf code trade_date
    else spot in
  if none_or_nonpositive spot then None else spot.

(** Lines 125-134: the rows of the next-month expiry with a numeric strike,
    each with its strike, in the order of the chain. *)
Definition expiry_rows (df_code : list row) (trade_date : date) : list row :=
  filter (fun r => String.eqb (strip (contract_month r)) (next_month trade_date))
         df_code.

Definition dropna (l : list (row * float)) : list (row * float) :=
  filter (fun rk => negb (is_nan (snd rk))) l.

Definition with_strike (l : list row) : list (row * float) :=
  map (fun r => (r, to_numeric (strike_price r))) l.

(** Lines 136-137: the row nearest to a target strike,
    [df_m.iloc[(df_m[strike] - target).abs().argmin()]]. *)
Definition distance (target strike : float) : float := abs (strike - target).

Definition nearest (df_m : list (row * float)) (target : float)
  : result (row * float) :=
  iloc df_m (series_argmin (map (fun rk => distance target (snd rk)) df_m)).

(** Lines 150-158. *)
Definition usable_sigma (raw_sigma : cell) : option float :=
  try_except
    (s <- py_float raw_sigma ;; Ok (if s <=? 0 then None else Some s))
    None.

(** Lines 165-172. *)
Definition theo_prices (spot call_strike put_strike T r : float)
    (sigma_call : option float) : option float * option float :=
  match sigma_call with
  | None => (None, None)
  | Some sigma =>
      match bs_call_price spot call_strike T r sigma with
      | Raise _ => (None, None)
      | Ok c =>
          match bs_put_price spot put_strike T r sigma with
          | Raise _ => (c, None)
          | Ok p => (c, p)
          end
      end
  end.

(** Lines 174-181. *)
Definition derive_put_iv (spot put_strike T r : float) (put_price : cell)
  : option float :=
  try_except
    (p <- py_float put_price ;;
     if 0 <? p then
       (p' <- py_float put_price ;;
        implied_vol_put spot put_strike T r p')
     else Ok None)
    None.

(** Lines 122-145, the contract selector: the call row and the put row with
    their strikes, [Ok None] for [continue]. *)
Definition candidates (df_code : list row) (trade_date : date)
  : list (row * float) :=
  dropna (with_strike (expiry_rows df_code trade_date)).

Definition select_contracts (df_code : list row) (spot : float)
    (trade_date : date) : result (option ((row * float) * (row * float))) :=
  let call_target := spot * 1.05 in
  let put_target := spot * 0.95 in
  match expiry_rows df_code trade_date with
  | [] => Ok None
  | _ :: _ =>
    let df_m := candidates df_code trade_date in
    match df_m with
    | [] => Ok None
    | _ :: _ =>
      call_row <- nearest df_m call_target ;;
      put_row <- nearest df_m put_target ;;
      let call_strike := snd call_row in
      let put_strike := snd put_row in
      call_ratio <- py_div (abs (call_strike - spot)) spot ;;
      if 0.20 <? call_ratio then Ok None
      else
        put_ratio <- py_div (abs (put_strike - spot)) spot ;;
        if 0.20 <? put_ratio then Ok None
        else Ok (Some (call_row, put_row))
    end
  end.

(** Lines 147-188: the record of an underlying from its selected rows. *)
Definition price_record (trade_date_str code : string) (spot : float)
    (next_month : string) (call_row put_row : row * float) : record :=
  let call_strike := snd call_row in
  let put_strike := snd put_row in
  let call_price := call_close (fst call_row) in
  let put_price := put_close (fst put_row) in
  let sigma_call := usable_sigma (call_iv (fst call_row)) in
  let asset_iv := base_iv (fst call_row) in
  let T := 30 / 365 in
  let r := 0 in
  let theo := theo_prices spot call_strike put_strike T r sigma_call in
  let put_iv := derive_put_iv spot put_strike T r put_price in
  {| rec_trade_date_str := trade_date_str;
     rec_code := code;
     rec_spot := spot;
     rec_next_month := next_month;
     call_strike := call_strike;
     call_price := call_price;
     call_theo := fst theo;
     sigma_call := sigma_call;
     put_strike := put_strike;
     put_price := put_price;
     put_theo := snd theo;
     put_iv := put_iv;
     asset_iv := asset_iv |}.

(** The body of the loop of [process_one_day] for one code (lines 103-188):
    [Ok None] is [continue], [Ok (Some rec)] appends [rec]. *)
Definition process_code (df : list row) (trade_date_str : string)
    (trade_date : date) (code : string) : result (option record) :=
  let df_code := filter (fun r => String.eqb (code4 r) code) df in
  match df_code with
  | [] => Ok None
  | first :: _ =>
    match resolve_spot first code trade_date with
    | None => Ok None
    | Some spot =>
      selected <- select_contracts df_code spot trade_date ;;
      match selected with
      | None => Ok None
      | Some (call_row, put_row) =>
          Ok (Some (price_record trade_date_str code spot
                      (next_month trade_date) call_row put_row))
      end
    end
  end.

(** The loop over the codes: an exception leaves the function. *)
Fixpoint process_codes (codes : list string) (df : list row)
    (trade_date_str : string) (trade_date : date) : result (list record) :=
  match codes with
  | [] => Ok []
  | code :: codes' =>
      o <- process_code df trade_date_str trade_date code ;;
      records <- process_codes codes' df trade_date_str trade_date ;;
      Ok (match o with
          | Some rec => rec :: records
          | None => records
          end)
  end.

(** Lines 94-190; [df] is what [read_jpx_csv] returned. *)
Definition process_one_day (df : option (list row)) (trade_date_str : string)
    (trade_date : date) : result (list record) :=
  match df with
  | None => Ok []
  | Some df => process_codes TARGET_CODES df trade_date_str trade_date
  end.

End Processor.

(** *** The chains of the specification's examples *)

(** A chain row of code 7203 for a strike and an underlying close, with
    call close 3.0, call IV 0.25 and put close 2.5. *)
Definition quote (contract_month : string) (strike spot : float) : row :=
  {| product_code := "72030000";
     contract_month := contract_month;
     strike_price := Num strike;
     call_close := Num 3;
     call_iv := Num 0.25;
     put_close := Num 2.5;
     underlying_close := Num spot;
     base_iv := Num 0.3 |}.

Definition trade_day : date := {| year := 2025; month := 10; day := 8 |}.

(** Strikes 90, 95, 100, 105, 110 at spot 100. *)
Definition chain_five : list row :=
  map (fun k => quote "202511" k 100) [90; 95; 100; 105; 110].

(** Strikes 70 and 130 only, at spot 100. *)
Definition chain_far : list row :=
  map (fun k => quote "202511" k 100) [70; 130].

(** The same strikes as [chain_five], the underlying close missing. *)
Definition chain_missing_spot : list row :=
  map (fun k => quote "202511" k nan) [90; 95; 100; 105; 110].

(** Cells are numbers in these chains: no text is ever parsed. *)
Definition no_text (s : string) : option float := None.

(** A price history with one bar, of close 2500, on the trading day. *)
Definition quoted_history (code : string) (d : date) : result (list bar) :=
  Ok [{| bar_index := d; bar_close := 2500 |}].

(** A price source that fails. *)
Definition no_history (code : string) (d : date) : result (list bar) :=
  Raise RuntimeError.

(** Stand-ins for the pricing engine: intrinsic values, and an inversion
    that gives up. *)
Definition intrinsic_call (S K T r sigma : float) : result (option float) :=
  Ok (Some (if K <? S then S - K else 0)).

Definition intrinsic_put (S K T r sigma : float) : result (option float) :=
  Ok (Some (if S <? K then K - S else 0)).

Definition no_inversion (S K T r p : float) : result (option float) :=
  Ok None.

End Day.

(** ** The run driver: [fetch_and_process_day] and [main] *)

Module Driver.

Import Day.

(** *** Dates of the run *)

Definition is_valid_date (d : date) : bool :=
  ((1 <=? month d) && (month d <=? 12)
   && (1 <=? day d) && (day d <=? days_in_month (year d) (month d)))%nat.

(** The following calendar day. *)
Definition next_day (d : date) : date :=
  if (day d <? days_in_month (year d) (month d))%nat then
    {| year := year d; month := month d; day := day d + 1 |}
  else if (month d <? 12)%nat then
    {| year := year d; month := month d + 1; day := 1 |}
  else
    {| year := year d + 1; month := 1; day := 1 |}.

(** Day of the week, Monday = 0 ... Sunday = 6, as [datetime.weekday()]. *)
Definition month_shift (m : nat) : nat :=
  nth (m - 1) [0; 3; 2; 5; 0; 3; 5; 1; 4; 6; 2; 4]%nat 0%nat.

Definition weekday (d : date) : nat :=
  let y := if (month d <? 3)%nat then year d - 1 else year d in
  ((y + y / 4 + y / 400 + month_shift (month d) + day d + 6 - y / 100) mod 7)%nat.

Definition is_business_day (d : date) : bool := (weekday d <? 5)%nat.

(** A number that grows with the calendar order of valid dates. *)
Definition day_stamp (d : date) : nat := 372 * year d + 31 * month d + day d.

(** The days from [d] up to [today], at most [fuel] of them. *)
Fixpoint days_from (fuel : nat) (d today : date) : list date :=
  match fuel with
  | O => []
  | S fuel' =>
      if date_leb d today then d :: days_from fuel' (next_day d) today
      else []
  end.

(** [pd.date_range(start, today, freq="B")]: the Mondays to Fridays from
    [start] to [today], both included, in order. *)
Definition bdate_range (start today : date) : list date :=
  filter is_business_day
    (days_from (day_stamp today + 1 - day_stamp start) start today).

(** *** Labels

    The labels of the years 1000 to 9999, which take four digits; the
    dates of a run are of 2025 and later. *)

Definition two_digits (n : nat) : string :=
  String (digit (n / 10)) (String (digit n) EmptyString).

Definition four_digits (n : nat) : string :=
  String (digit (n / 1000)) (String (digit (n / 100))
    (String (digit (n / 10)) (String (digit n) EmptyString))).

(** [strftime("%Y%m%d")] *)
Definition strftime_Ymd (d : date) : string :=
  (four_digits (year d) ++ two_digits (month d) ++ two_digits (day d))%string.

(** [strftime("%Y-%m-%d")] *)
Definition strftime_Y_m_d (d : date) : string :=
  (four_digits (year d) ++ "-" ++ two_digits (month d) ++ "-"
   ++ two_digits (day d))%string.

(** [ZIP_URL_TEMPLATE.format(day=day)] *)
Definition ZIP_URL_TEMPLATE (day : string) : string :=
  ("https://www.jpx.co.jp/markets/derivatives/option-price/data/ose"
   ++ day ++ "tp.zip")%string.

(** [s.endswith(suffix)] *)
Definition endswith (s suffix : string) : bool :=
  let n := String.length s in
  let m := String.length suffix in
  (m <=? n)%nat && String.eqb (substring (n - m) m s) suffix.

(** The first name of a list that ends in [.csv]. *)
Definition first_csv (names : list string) (name : string) : Prop :=
  exists pre post,
    names = pre ++ name :: post
    /\ endswith name ".csv" = true
    /\ Forall (fun n => endswith n ".csv" = false) pre.

(** The last member of an archive of a name. *)
Definition last_member {file : Type} (z : list (string * file))
    (name : string) (f : file) : Prop :=
  exists pre post,
    z = pre ++ (name, f) :: post /\ Forall (fun m => fst m <> name) post.

Section Run.

(** The parameters of the day processor. *)
Variable float_of_str : string -> option float.
Variable numeric_of_str : string -> option float.
Variable yf_history : string -> date -> result (list bar).
Variable bs_call_price bs_put_price :
  float -> float -> float -> float -> float -> result (option float).
Variable implied_vol_put :
  float -> float -> float -> float -> float -> result (option float).

(** The bytes of an archive and an open member of it. *)
Variable content : Type.
Variable file : Type.

Record response : Type := { status_code : Z; resp_content : content }.

(** [requests.get(url)]: a response, or an exception. *)
Variable requests_get : string -> result response.

(** [zipfile.ZipFile(io.BytesIO(content))]: the members by name, in the
    order of [namelist()], or an exception. *)
Variable zip_file : content -> result (list (string * file)).

(** [read_jpx_csv(f)]: the chain, or an exception of [pd.read_csv]. *)
Variable read_jpx_csv : file -> result (list row).

(** [names[0]] *)
Definition first_name (names : list string) : result string :=
  match names with
  | [] => Raise IndexError
  | n :: _ => Ok n
  end.

(** [z.open(name)]: the member of that name; of two members of one name
    the later one. *)
Definition zip_open (z : list (string * file)) (name : string) : result file :=
  match find (fun m => String.eqb (fst m) name) (rev z) with
  | Some m => Ok (snd m)
  | None => Raise ValueError
  end.

(** Lines 191-210.  The messages printed are left out. *)
Definition fetch_and_process_day (trade_date : date) : list record :=
  let day_str := strftime_Ymd trade_date in
  let trade_date_str := strftime_Y_m_d trade_date in
  let url := ZIP_URL_TEMPLATE day_str in
  try_except
    (resp <- requests_get url ;;
     if negb (status_code resp =? 200)%Z then Ok []
     else
       z <- zip_file (resp_content resp) ;;
       csv_name <-
         first_name (filter (fun n => endswith n ".csv") (map fst z)) ;;
       f <- zip_open z csv_name ;;
       df <- read_jpx_csv f ;;
       process_one_day float_of_str numeric_of_str yf_history
         bs_call_price bs_put_price implied_vol_put
         (Some df) trade_date_str trade_date)
    [].

(** A successful fetch of the chain [df] of a day. *)
Definition fetched (d : date) (df : list row) : Prop :=
  exists resp z name f,
    requests_get (ZIP_URL_TEMPLATE (strftime_Ymd d)) = Ok resp
    /\ status_code resp = 200%Z
    /\ zip_file (resp_content resp) = Ok z
    /\ first_csv (map fst z) name
    /\ last_member z name f
    /\ read_jpx_csv f = Ok df.

Definition start_date : date := {| year := 2025; month := 10; day := 8 |}.

(** Lines 232-235. *)
Definition missing_days (existing_dates : list string) (all_days : list date)
  : list date :=
  filter
    (fun d => negb (existsb (String.eqb (strftime_Y_m_d d)) existing_dates))
    all_days.

(** Lines 213-246: [all_records], the records [main] appends to the file,
    from the dates of the existing file ([] when there is none) and today's
    date. *)
Definition main (existing_dates : list string) (today : date) : list record :=
  let all_days := bdate_range start_date today in
  flat_map fetch_and_process_day (missing_days existing_dates all_days).

End Run.

(** *** The archive sites of the examples *)

(** An archive site that answers every request with one archive. *)
Definition answering (url : string) : result (response unit) :=
  Ok {| status_code := 200; resp_content := tt |}.

(** An archive site that has no archive. *)
Definition not_found (url : string) : result (response unit) :=
  Ok {| status_code := 404; resp_content := tt |}.

(** An archive of a note and of the chain [chain_five]. *)
Definition one_archive (c : unit) : result (list (string * list row)) :=
  Ok [("readme.txt"%string, []); ("ose20251008tp.csv"%string, chain_five)].

Definition parsed (f : list row) : result (list row) := Ok f.

Definition friday : date := {| year := 2025; month := 10; day := 10 |}.

End Driver.

(** ** The dashboard: row highlighting *)

Module Dashboard.

Local Open Scope float_scope.

(** [highlight_iv] of dashboard.py (lines 72-81), on the 原資産IV cell of a
    row and the number of cells of the row. *)
Definition highlight_iv (iv : option float) (len_row : nat) : list string :=
  match iv with
  | None => repeat EmptyString len_row
  | Some iv =>
      if 0.30 <=? iv then
        repeat "background-color: #cc6600; color: white"%string len_row
      else if 0.25 <=? iv then
        repeat "background-color: #ffcc99"%string len_row
      else repeat EmptyString len_row
  end.

(** How strong a cell style is: 2 for the dark one, 1 for the light one,
    0 for any other. *)
Definition shade (style : string) : nat :=
  if String.eqb style "background-color: #cc6600; color: white" then 2%nat
  else if String.eqb style "background-color: #ffcc99" then 1%nat
  else 0%nat.

End Dashboard.

(** ** Properties of the pricing engine *)

Module PricingFacts.

Import Pricing.
Local Open Scope R_scope.

Lemma sqrt_2PI_pos : 0 < sqrt (2 * PI).
Proof. apply sqrt_lt_R0. generalize PI_RGT_0. lra. Qed.

Lemma gauss_pos t : 0 < gauss t.
Proof.
  unfold gauss. apply Rdiv_lt_0_compat; [apply exp_pos | apply sqrt_2PI_pos].
Qed.

Lemma gauss_even t : gauss (- t) = gauss t.
Proof. unfold gauss. f_equal. f_equal. lra. Qed.

Lemma gauss_int_chasles (a y : R) :
  gauss_int y = gauss_int a + RiemannInt (gauss_integrable a y).
Proof. unfold gauss_int. symmetry. apply RiemannInt_P26. Qed.

Lemma gauss_int_0 : gauss_int 0 = 0.
Proof. unfold gauss_int. apply RiemannInt_P9. Qed.

(** On a segment [a, b] the integral from 0 differs from the library's
    primitive from [a] by a constant. *)
Lemma gauss_int_primitive (a b : R) (h : a <= b)
    (C0 : forall t, a <= t <= b -> continuity_pt gauss t) (y : R) :
  a <= y <= b ->
  gauss_int y = gauss_int a + primitive h (FTC_P1 h C0) y.
Proof.
  intros [Hay Hyb]. rewrite (gauss_int_chasles a y). f_equal.
  unfold primitive.
  destruct (Rle_dec a y) as [r | n]; [| lra].
  destruct (Rle_dec y b) as [r0 | n]; [| lra].
  apply RiemannInt_P5.
Qed.

(** Fundamental theorem of calculus for [gauss_int]. *)
Lemma derivable_pt_lim_gauss_int (x : R) :
  derivable_pt_lim gauss_int x (gauss x).
Proof.
  assert (h : x - 1 <= x + 1) by lra.
  assert (C0 : forall t, x - 1 <= t <= x + 1 -> continuity_pt gauss t)
    by (intros; apply gauss_continuity).
  assert (Hx : x - 1 < x < x + 1) by lra.
  pose proof (RiemannInt_P27 h C0 Hx) as HP.
  intros eps Heps. destruct (HP eps Heps) as [delta Hdelta].
  assert (Hd : 0 < Rmin delta 1).
  { apply Rmin_glb_lt; [apply cond_pos | lra]. }
  exists (mkposreal _ Hd). intros k Hk Hkd. simpl in Hkd.
  assert (Hk1 : Rabs k < 1) by (eapply Rlt_le_trans; [exact Hkd | apply Rmin_r]).
  assert (Hk2 : Rabs k < delta) by (eapply Rlt_le_trans; [exact Hkd | apply Rmin_l]).
  apply Rabs_def2 in Hk1.
  rewrite (gauss_int_primitive _ _ h C0 (x + k)) by lra.
  rewrite (gauss_int_primitive _ _ h C0 x) by lra.
  replace (gauss_int (x - 1) + primitive h (FTC_P1 h C0) (x + k)
           - (gauss_int (x - 1) + primitive h (FTC_P1 h C0) x))
    with (primitive h (FTC_P1 h C0) (x + k) - primitive h (FTC_P1 h C0) x) by ring.
  apply Hdelta; assumption.
Qed.

Lemma derivable_pt_lim_norm_cdf (x : R) :
  derivable_pt_lim norm_cdf x (gauss x).
Proof.
  unfold norm_cdf.
  replace (gauss x) with (0 + gauss x) by ring.
  apply (derivable_pt_lim_plus (fun _ => 1 / 2) gauss_int).
  - apply derivable_pt_lim_const.
  - apply derivable_pt_lim_gauss_int.
Qed.

(** The integral of the even density is odd. *)
Lemma gauss_int_odd (x : R) : gauss_int (- x) = - gauss_int x.
Proof.
  set (G := fun y => gauss_int y + gauss_int (- y)).
  assert (HG : forall c, derivable_pt_lim G c ((fun _ => 0) c)).
  { intros c. unfold G.
    replace 0 with (gauss c + - gauss (- c)) by (rewrite gauss_even; ring).
    apply (derivable_pt_lim_plus gauss_int (mirr_fct gauss_int)).
    - apply derivable_pt_lim_gauss_int.
    - apply derivable_pt_lim_mirr_fwd. rewrite Ropp_involutive.
      apply derivable_pt_lim_gauss_int. }
  assert (G0 : G 0 = 0).
  { unfold G. rewrite Ropp_0, gauss_int_0. ring. }
  assert (HGx : G x = 0).
  { destruct (Rtotal_order 0 x) as [Hlt | [Heq | Hgt]].
    - destruct (MVT_cor2 G (fun _ => 0) 0 x Hlt) as [c [Hc _]].
      + intros; apply HG.
      + lra.
    - subst x. exact G0.
    - destruct (MVT_cor2 G (fun _ => 0) x 0 Hgt) as [c [Hc _]].
      + intros; apply HG.
      + lra. }
  unfold G in HGx. lra.
Qed.

Lemma norm_cdf_0 : norm_cdf 0 = 1 / 2.
Proof. unfold norm_cdf. rewrite gauss_int_0. lra. Qed.

(** Symmetry of the distribution function. *)
Lemma norm_cdf_sym (x : R) : norm_cdf x + norm_cdf (- x) = 1.
Proof. unfold norm_cdf. rewrite gauss_int_odd. lra. Qed.

Lemma guard_true_iff (S K T sigma : R) :
  guard S K T sigma = true <-> (S <= 0 \/ K <= 0 \/ T <= 0 \/ sigma <= 0).
Proof.
  unfold guard.
  destruct (Rle_dec S 0); [tauto |].
  destruct (Rle_dec K 0); [tauto |].
  destruct (Rle_dec T 0); [tauto |].
  destruct (Rle_dec sigma 0); [tauto |].
  split; [discriminate | tauto].
Qed.

Lemma guard_false_iff (S K T sigma : R) :
  guard S K T sigma = false <-> (0 < S /\ 0 < K /\ 0 < T /\ 0 < sigma).
Proof.
  pose proof (guard_true_iff S K T sigma) as H.
  destruct (guard S K T sigma); split; intros H0; try discriminate; try reflexivity.
  - assert (S <= 0 \/ K <= 0 \/ T <= 0 \/ sigma <= 0) by tauto. lra.
  - repeat split; apply Rnot_le_lt; intro; assert (true = false) by
      (symmetry; apply H; tauto); discriminate.
Qed.

Lemma bs_call_price_valid (S K T r sigma : R) :
  0 < S -> 0 < K -> 0 < T -> 0 < sigma ->
  bs_call_price S K T r sigma =
  Some (S * norm_cdf (d1 S K T r sigma)
        - K * exp (- r * T) * norm_cdf (d2 S K T r sigma)).
Proof.
  intros. unfold bs_call_price.
  replace (guard S K T sigma) with false by (symmetry; apply guard_false_iff; tauto).
  reflexivity.
Qed.

Lemma bs_put_price_valid (S K T r sigma : R) :
  0 < S -> 0 < K -> 0 < T -> 0 < sigma ->
  bs_put_price S K T r sigma =
  Some (K * exp (- r * T) * norm_cdf (- d2 S K T r sigma)
        - S * norm_cdf (- d1 S K T r sigma)).
Proof.
  intros. unfold bs_put_price.
  replace (guard S K T sigma) with false by (symmetry; apply guard_false_iff; tauto).
  reflexivity.
Qed.

(** *** Sensitivity of the put value to the volatility *)

Section Vega.

Variables S K T r : R.
Hypothesis HS : 0 < S.
Hypothesis HK : 0 < K.
Hypothesis HT : 0 < T.

Let s := sqrt T.
Let a := (ln (S / K) + r * T) / s.
Let b := s / 2.

Lemma lit_half : 0.5 = 1 / 2.
Proof. lra. Qed.

Lemma s_pos : 0 < s.
Proof. apply sqrt_lt_R0, HT. Qed.

Lemma s_sqr : s * s = T.
Proof. apply sqrt_sqrt. lra. Qed.

Lemma d1_split (x : R) : x <> 0 -> d1 S K T r x = a * / x + b * x.
Proof.
  intros Hx. unfold d1, a, b. fold s. rewrite <- s_sqr, lit_half.
  pose proof s_pos. field. split; lra.
Qed.

Lemma derivable_pt_lim_d1 (x : R) :
  0 < x -> derivable_pt_lim (d1 S K T r) x (b - a / x ^ 2).
Proof.
  intros Hx.
  apply (derivable_pt_lim_locally_ext (fun y => a * / y + b * y) _ x (x / 2) (x + 1)).
  - lra.
  - intros z Hz. symmetry. apply d1_split. lra.
  - replace (b - a / x ^ 2) with
      ((0 * id x - 1 * fct_cte a x) / Rsqr (id x) + b * 1)
      by (unfold id, fct_cte, Rsqr; field; lra).
    apply (derivable_pt_lim_plus (fun y => a * / y) (fun y => b * y)).
    + apply (derivable_pt_lim_div (fct_cte a) id).
      * apply derivable_pt_lim_const.
      * apply derivable_pt_lim_id.
      * unfold id; lra.
    + apply (derivable_pt_lim_scal id b). apply derivable_pt_lim_id.
Qed.

Lemma derivable_pt_lim_d2 (x : R) :
  0 < x -> derivable_pt_lim (d2 S K T r) x (b - a / x ^ 2 - s).
Proof.
  intros Hx. unfold d2.
  apply (derivable_pt_lim_minus (d1 S K T r) (fun y => y * sqrt T)).
  - apply derivable_pt_lim_d1, Hx.
  - replace s with (1 * sqrt T) by (unfold s; ring).
    apply (derivable_pt_lim_scal_right id). apply derivable_pt_lim_id.
Qed.

(** The classical identity S phi(d1) = K exp(-rT) phi(d2). *)
Lemma gauss_d1_d2 (x : R) :
  0 < x ->
  K * exp (- r * T) * gauss (d2 S K T r x) = S * gauss (d1 S K T r x).
Proof.
  intros Hx. pose proof s_pos as Hs. pose proof s_sqr as Hss.
  unfold gauss.
  assert (E : - (d2 S K T r x * d2 S K T r x) / 2 =
              - (d1 S K T r x * d1 S K T r x) / 2 + (ln (S / K) + r * T)).
  { unfold d2. rewrite d1_split by lra. unfold a, b. fold s.
    rewrite <- Hss. field. split; lra. }
  rewrite E, !exp_plus, exp_ln by (apply Rdiv_lt_0_compat; lra).
  assert (Er : exp (- r * T) * exp (r * T) = 1).
  { rewrite <- exp_plus. replace (- r * T + r * T) with 0 by ring. apply exp_0. }
  pose proof sqrt_2PI_pos as Hc.
  transitivity (S * (exp (- (d1 S K T r x * d1 S K T r x) / 2) / sqrt (2 * PI))
                * (exp (- r * T) * exp (r * T))).
  - field. split; lra.
  - rewrite Er. ring.
Qed.

(** Vega: the derivative of the put value in the volatility. *)
Lemma derivable_pt_lim_put_value (x : R) :
  0 < x ->
  derivable_pt_lim (put_value S K T r) x (S * gauss (d1 S K T r x) * s).
Proof.
  intros Hx. unfold put_value.
  set (c := K * exp (- r * T)).
  set (D1 := b - a / x ^ 2).
  assert (H1 : derivable_pt_lim (fun y => norm_cdf (- d1 S K T r y)) x
                 (gauss (- d1 S K T r x) * - D1)).
  { apply (derivable_pt_lim_comp (fun y => - d1 S K T r y) norm_cdf).
    - apply (derivable_pt_lim_opp (d1 S K T r)), derivable_pt_lim_d1, Hx.
    - apply derivable_pt_lim_norm_cdf. }
  assert (H2 : derivable_pt_lim (fun y => norm_cdf (- d2 S K T r y)) x
                 (gauss (- d2 S K T r x) * - (D1 - s))).
  { apply (derivable_pt_lim_comp (fun y => - d2 S K T r y) norm_cdf).
    - apply (derivable_pt_lim_opp (d2 S K T r)), derivable_pt_lim_d2, Hx.
    - apply derivable_pt_lim_norm_cdf. }
  rewrite gauss_even in H1, H2.
  replace (S * gauss (d1 S K T r x) * s) with
    (c * (gauss (d2 S K T r x) * - (D1 - s))
     - S * (gauss (d1 S K T r x) * - D1)).
  - apply (derivable_pt_lim_minus
             (fun y => c * norm_cdf (- d2 S K T r y))
             (fun y => S * norm_cdf (- d1 S K T r y))).
    + apply (derivable_pt_lim_scal (fun y => norm_cdf (- d2 S K T r y)) c), H2.
    + apply (derivable_pt_lim_scal (fun y => norm_cdf (- d1 S K T r y)) S), H1.
  - pose proof (gauss_d1_d2 x Hx) as E. fold c in E.
    replace (c * (gauss (d2 S K T r x) * - (D1 - s)))
      with ((c * gauss (d2 S K T r x)) * - (D1 - s)) by ring.
    rewrite E. ring.
Qed.

Lemma put_value_increasing (x y : R) :
  0 < x -> x < y -> put_value S K T r x < put_value S K T r y.
Proof.
  intros Hx Hxy.
  destruct (MVT_cor2 (put_value S K T r)
              (fun z => S * gauss (d1 S K T r z) * s) x y Hxy) as [c [Hc Hcxy]].
  - intros z Hz. apply derivable_pt_lim_put_value. lra.
  - assert (0 < S * gauss (d1 S K T r c) * s).
    { apply Rmult_lt_0_compat; [apply Rmult_lt_0_compat |];
        [exact HS | apply gauss_pos | apply s_pos]. }
    assert (0 < S * gauss (d1 S K T r c) * s * (y - x))
      by (apply Rmult_lt_0_compat; lra).
    lra.
Qed.

Lemma put_value_continuity_pt (x : R) :
  0 < x -> continuity_pt (put_value S K T r) x.
Proof.
  intros Hx. apply derivable_continuous_pt.
  exists (S * gauss (d1 S K T r x) * s). apply derivable_pt_lim_put_value, Hx.
Qed.

End Vega.

(** Intermediate values on a segment, for either orientation of the signs. *)
Lemma root_exists (g : R -> R) (a b : R) :
  a < b ->
  (forall x, a <= x <= b -> continuity_pt g x) ->
  g a * g b <= 0 ->
  exists x, a <= x <= b /\ g x = 0.
Proof.
  intros Hab Hc Hs.
  destruct (Rtotal_order (g a) 0) as [Ha | [Ha | Ha]].
  - destruct (Rtotal_order (g b) 0) as [Hb | [Hb | Hb]].
    + exfalso. assert (0 < g a * g b); [| lra].
      replace (g a * g b) with ((- g a) * (- g b)) by ring.
      apply Rmult_lt_0_compat; lra.
    + exists b. split; [lra | exact Hb].
    + destruct (IVT_interv g a b Hc Hab Ha Hb) as [z Hz]. exists z. exact Hz.
  - exists a. split; [lra | exact Ha].
  - destruct (Rtotal_order (g b) 0) as [Hb | [Hb | Hb]].
    + destruct (IVT_interv (fun x => - g x) a b) as [z [Hz Hgz]].
      * intros x Hx. apply (continuity_pt_opp g), Hc, Hx.
      * exact Hab.
      * lra.
      * lra.
      * exists z. split; [exact Hz | lra].
    + exists b. split; [lra | exact Hb].
    + exfalso. assert (0 < g a * g b); [| lra].
      apply Rmult_lt_0_compat; lra.
Qed.

Lemma brentq_exact_contract : brentq_contract brentq_exact.
Proof.
  split.
  - intros f a b e [H | H]; unfold brentq_exact; rewrite H.
    + eexists; reflexivity.
    + destruct (f a); eexists; reflexivity.
  - intros f a b fa fb Ha Hb Hs. unfold brentq_exact. rewrite Ha, Hb.
    destruct (Rlt_dec 0 (fa * fb)); [| contradiction].
    eexists; reflexivity.
  - intros f a b x. unfold brentq_exact.
    destruct (f a) as [fa | e]; [| discriminate].
    destruct (f b) as [fb | e]; [| discriminate].
    destruct (Rlt_dec 0 (fa * fb)); [discriminate |].
    destruct (excluded_middle_informative _) as [H | H]; [| discriminate].
    intros E. injection E as <-.
    exact (proj2_sig (constructive_indefinite_description _ H)).
  - intros f g a b Hab Hf Hc Hs. unfold brentq_exact.
    rewrite (Hf a), (Hf b) by lra.
    destruct (Rlt_dec 0 (g a * g b)); [lra |].
    destruct (excluded_middle_informative _) as [H | H].
    + eexists; reflexivity.
    + exfalso. apply H. destruct (root_exists g a b Hab Hc Hs) as [x [Hx Hgx]].
      exists x. split; [exact Hx |]. rewrite (Hf x Hx), Hgx. reflexivity.
Qed.

(** *** Facts about [implied_vol_put] *)

Lemma sigma_lo_pos : 0 < sigma_lo.
Proof. unfold sigma_lo. lra. Qed.

Lemma sigma_lo_hi : sigma_lo < sigma_hi.
Proof. unfold sigma_lo, sigma_hi. lra. Qed.

Lemma bs_put_price_put_value (S K T r sigma : R) :
  0 < S -> 0 < K -> 0 < T -> 0 < sigma ->
  bs_put_price S K T r sigma = Some (put_value S K T r sigma).
Proof. intros. rewrite bs_put_price_valid by assumption. reflexivity. Qed.

Lemma bs_put_price_some (S K T r sigma p : R) :
  bs_put_price S K T r sigma = Some p ->
  (0 < S /\ 0 < K /\ 0 < T /\ 0 < sigma) /\ p = put_value S K T r sigma.
Proof.
  unfold bs_put_price. destruct (guard S K T sigma) eqn:G; [discriminate |].
  intros E. injection E as <-. split; [apply guard_false_iff, G | reflexivity].
Qed.

Lemma objective_ok (S K T r mp sigma : R) :
  0 < S -> 0 < K -> 0 < T -> 0 < sigma ->
  objective S K T r mp sigma = Ok (put_value S K T r sigma - mp).
Proof.
  intros. unfold objective. rewrite bs_put_price_put_value by assumption.
  reflexivity.
Qed.

Lemma objective_root (S K T r mp sigma : R) :
  objective S K T r mp sigma = Ok 0 -> bs_put_price S K T r sigma = Some mp.
Proof.
  unfold objective. destruct (bs_put_price S K T r sigma) as [p |]; [| discriminate].
  intros E. injection E as E. f_equal. lra.
Qed.

Section ImpliedVolFacts.

Variable brentq : (R -> result R) -> R -> R -> result R.
Hypothesis contract : brentq_contract brentq.

(** What a returned volatility satisfies. *)
Lemma implied_vol_put_sound (S K T r mp sigma : R) :
  implied_vol_put brentq S K T r mp = Some sigma ->
  sigma_lo <= sigma <= sigma_hi /\ bs_put_price S K T r sigma = Some mp.
Proof.
  unfold implied_vol_put.
  destruct (brentq _ _ _) as [x | e] eqn:E; [| discriminate].
  intros H. injection H as <-.
  destruct (brentq_root _ contract _ _ _ _ E) as [Hx Hr].
  split; [exact Hx | apply objective_root, Hr].
Qed.

(** A bracketed root is found. *)
Lemma implied_vol_put_bracketed (S K T r mp pa pb : R) :
  bs_put_price S K T r sigma_lo = Some pa ->
  bs_put_price S K T r sigma_hi = Some pb ->
  (pa - mp) * (pb - mp) <= 0 ->
  exists sigma, implied_vol_put brentq S K T r mp = Some sigma.
Proof.
  intros Ha Hb Hs.
  destruct (bs_put_price_some _ _ _ _ _ _ Ha) as [[HS [HK [HT _]]] ->].
  destruct (bs_put_price_some _ _ _ _ _ _ Hb) as [_ ->].
  pose proof sigma_lo_pos as Hlo.
  destruct (brentq_converges _ contract (objective S K T r mp)
              (fun x => put_value S K T r x - mp) sigma_lo sigma_hi) as [x Hx].
  - apply sigma_lo_hi.
  - intros x Hx. apply objective_ok; lra.
  - intros x Hx.
    apply (continuity_pt_minus (put_value S K T r) (fun _ => mp)).
    + apply put_value_continuity_pt; lra.
    + apply continuity_pt_const. intros u v; reflexivity.
  - exact Hs.
  - exists x. unfold implied_vol_put. rewrite Hx. reflexivity.
Qed.

(** End points of equal strict sign: no result. *)
Lemma implied_vol_put_not_bracketed (S K T r mp pa pb : R) :
  bs_put_price S K T r sigma_lo = Some pa ->
  bs_put_price S K T r sigma_hi = Some pb ->
  0 < (pa - mp) * (pb - mp) ->
  implied_vol_put brentq S K T r mp = None.
Proof.
  intros Ha Hb Hs.
  destruct (brentq_same_sign _ contract (objective S K T r mp)
              sigma_lo sigma_hi (pa - mp) (pb - mp)) as [e He].
  - unfold objective. rewrite Ha. reflexivity.
  - unfold objective. rewrite Hb. reflexivity.
  - exact Hs.
  - unfold implied_vol_put. rewrite He. reflexivity.
Qed.

(** Invalid S, K or T: the objective raises, hence no result. *)
Lemma implied_vol_put_invalid (S K T r mp : R) :
  S <= 0 \/ K <= 0 \/ T <= 0 ->
  implied_vol_put brentq S K T r mp = None.
Proof.
  intros H.
  destruct (brentq_propagates _ contract (objective S K T r mp)
              sigma_lo sigma_hi TypeError) as [e He].
  - left. unfold objective, bs_put_price.
    replace (guard S K T sigma_lo) with true; [reflexivity |].
    symmetry. apply guard_true_iff. tauto.
  - unfold implied_vol_put. rewrite He. reflexivity.
Qed.

End ImpliedVolFacts.

Lemma spec_d1_eq (S K T r sigma : R) : spec_d1 S K T r sigma = d1 S K T r sigma.
Proof.
  unfold spec_d1, d1. rewrite lit_half. do 2 f_equal. f_equal. simpl. lra.
Qed.

Lemma spec_d2_eq (S K T r sigma : R) : spec_d2 S K T r sigma = d2 S K T r sigma.
Proof. unfold spec_d2, d2. rewrite spec_d1_eq. reflexivity. Qed.

Lemma exp_opp_mult (r T : R) : exp (- r * T) = exp (- (r * T)).
Proof. f_equal. ring. Qed.





(** Strict monotonicity of [bs_put_price] in the volatility. *)
Lemma bs_put_price_lt (S K T r s1 s2 p1 p2 : R) :
  0 < s1 -> s1 < s2 ->
  bs_put_price S K T r s1 = Some p1 -> bs_put_price S K T r s2 = Some p2 ->
  p1 < p2.
Proof.
  intros H1 H12 E1 E2.
  destruct (bs_put_price_some _ _ _ _ _ _ E1) as [[HS [HK [HT _]]] ->].
  destruct (bs_put_price_some _ _ _ _ _ _ E2) as [_ ->].
  apply put_value_increasing; assumption.
Qed.

Lemma bs_put_price_inj (S K T r s1 s2 p : R) :
  0 < s1 -> 0 < s2 ->
  bs_put_price S K T r s1 = Some p -> bs_put_price S K T r s2 = Some p ->
  s1 = s2.
Proof.
  intros H1 H2 E1 E2.
  destruct (Rtotal_order s1 s2) as [H | [H | H]]; [| exact H |].
  - pose proof (bs_put_price_lt _ _ _ _ _ _ _ _ H1 H E1 E2). lra.
  - pose proof (bs_put_price_lt _ _ _ _ _ _ _ _ H2 H E2 E1). lra.
Qed.




Lemma put_value_bracket (S K T r sigma0 : R) :
  0 < S -> 0 < K -> 0 < T -> sigma_lo <= sigma0 <= sigma_hi ->
  (put_value S K T r sigma_lo - put_value S K T r sigma0)
  * (put_value S K T r sigma_hi - put_value S K T r sigma0) <= 0.
Proof.
  intros HS HK HT [H1 H2]. pose proof sigma_lo_pos as Hlo.
  assert (A : put_value S K T r sigma_lo <= put_value S K T r sigma0).
  { destruct H1 as [H1 | <-]; [left; apply put_value_increasing; assumption | right; reflexivity]. }
  assert (B : put_value S K T r sigma0 <= put_value S K T r sigma_hi).
  { destruct H2 as [H2 | ->]; [left; apply put_value_increasing; try assumption; lra | right; reflexivity]. }
  replace ((put_value S K T r sigma_lo - put_value S K T r sigma0)
           * (put_value S K T r sigma_hi - put_value S K T r sigma0))
    with (- ((put_value S K T r sigma0 - put_value S K T r sigma_lo)
             * (put_value S K T r sigma_hi - put_value S K T r sigma0))) by ring.
  assert (0 <= (put_value S K T r sigma0 - put_value S K T r sigma_lo)
               * (put_value S K T r sigma_hi - put_value S K T r sigma0))
    by (apply Rmult_le_pos; lra).
  lra.
Qed.


(** Below the bracket the objective is positive at both ends. *)
Lemma implied_vol_put_below_bracket
    (brentq : (R -> result R) -> R -> R -> result R)
    (contract : brentq_contract brentq) (S K T r sigma0 : R) :
  0 < S -> 0 < K -> 0 < T -> 0 < sigma0 < sigma_lo ->
  implied_vol_put brentq S K T r (put_value S K T r sigma0) = None.
Proof.
  intros HS HK HT [H0 H1]. pose proof sigma_lo_hi as Hlh.
  apply (implied_vol_put_not_bracketed brentq contract S K T r _
           (put_value S K T r sigma_lo) (put_value S K T r sigma_hi)).
  - apply bs_put_price_put_value; lra.
  - apply bs_put_price_put_value; lra.
  - apply Rmult_lt_0_compat.
    + pose proof (put_value_increasing S K T r HS HK HT sigma0 sigma_lo H0 H1). lra.
    + assert (sigma0 < sigma_hi) by lra.
      pose proof (put_value_increasing S K T r HS HK HT sigma0 sigma_hi H0 H). lra.
Qed.




End PricingFacts.

(** ** The order of binary64 floats *)

Module FloatOrder.

(** A non-NaN binary64 value, as a key ordered lexicographically. *)
Definition key (x : spec_float) : option (Z * Z * Z) :=
  match x with
  | S754_nan => None
  | S754_infinity true => Some (-2, 0, 0)%Z
  | S754_infinity false => Some (2, 0, 0)%Z
  | S754_zero _ => Some (0, 0, 0)%Z
  | S754_finite true m e => Some (-1, - e, Z.neg m)%Z
  | S754_finite false m e => Some (1, e, Z.pos m)%Z
  end.

Definition lex (a b : Z * Z * Z) : comparison :=
  let '(a1, a2, a3) := a in
  let '(b1, b2, b3) := b in
  match (a1 ?= b1)%Z with
  | Eq => match (a2 ?= b2)%Z with Eq => (a3 ?= b3)%Z | c => c end
  | c => c
  end.

Definition lex_lt (a b : Z * Z * Z) : Prop :=
  let '(a1, a2, a3) := a in
  let '(b1, b2, b3) := b in
  (a1 < b1 \/ (a1 = b1 /\ (a2 < b2 \/ (a2 = b2 /\ a3 < b3))))%Z.

Lemma lex_Lt a b : lex a b = Lt <-> lex_lt a b.
Proof.
  destruct a as [[a1 a2] a3], b as [[b1 b2] b3]. unfold lex, lex_lt.
  destruct (Z.compare_spec a1 b1); destruct (Z.compare_spec a2 b2);
    destruct (Z.compare_spec a3 b3); split; intros; try discriminate;
    try reflexivity; lia.
Qed.

Lemma lex_Eq a b : lex a b = Eq <-> a = b.
Proof.
  destruct a as [[a1 a2] a3], b as [[b1 b2] b3]. unfold lex.
  destruct (Z.compare_spec a1 b1); destruct (Z.compare_spec a2 b2);
    destruct (Z.compare_spec a3 b3); split; intros E; try discriminate;
    try (injection E; intros); subst; try reflexivity; try lia.
Qed.

Lemma lex_Gt a b : lex a b = Gt <-> lex_lt b a.
Proof.
  destruct a as [[a1 a2] a3], b as [[b1 b2] b3]. unfold lex, lex_lt.
  destruct (Z.compare_spec a1 b1); destruct (Z.compare_spec a2 b2);
    destruct (Z.compare_spec a3 b3); split; intros; try discriminate;
    try reflexivity; lia.
Qed.

Lemma SFcompare_key (x y : spec_float) :
  SFcompare x y =
  match key x, key y with
  | Some a, Some b => Some (lex a b)
  | _, _ => None
  end.
Proof.
  destruct x as [sx | sx | | sx mx ex], y as [sy | sy | | sy my ey];
    try destruct sx; try destruct sy; try reflexivity.
  - cbn. rewrite Z.compare_opp. 
    destruct (Z.compare_spec ex ey); try reflexivity.
    + subst. rewrite Z.compare_refl. rewrite Pos.compare_cont_spec. cbn.
      destruct (mx ?= my)%positive; reflexivity.
    + destruct (Z.compare_spec ey ex); try lia; reflexivity.
    + destruct (Z.compare_spec ey ex); try lia; reflexivity.
Qed.


Definition fkey (x : float) : option (Z * Z * Z) := key (Prim2SF x).

Lemma ltb_key (x y : float) :
  (x <? y)%float = true <->
  exists a b, fkey x = Some a /\ fkey y = Some b /\ lex_lt a b.
Proof.
  rewrite FloatAxioms.ltb_spec. unfold SFltb, fkey. rewrite SFcompare_key.
  destruct (key (Prim2SF x)) as [a |], (key (Prim2SF y)) as [b |].
  - destruct (lex a b) eqn:E; split; intros H; try discriminate; try reflexivity.
    + destruct H as (a' & b' & Ea & Eb & H). injection Ea as <-. injection Eb as <-.
      apply lex_Lt in H. congruence.
    + exists a, b. repeat split. apply lex_Lt, E.
    + destruct H as (a' & b' & Ea & Eb & H). injection Ea as <-. injection Eb as <-.
      apply lex_Lt in H. congruence.
  - split; [discriminate | intros (a' & b' & _ & Eb & _); discriminate].
  - split; [discriminate | intros (a' & b' & Ea & _ & _); discriminate].
  - split; [discriminate | intros (a' & b' & Ea & _ & _); discriminate].
Qed.

Lemma leb_key (x y : float) :
  (x <=? y)%float = true <->
  exists a b, fkey x = Some a /\ fkey y = Some b /\ (lex_lt a b \/ a = b).
Proof.
  rewrite FloatAxioms.leb_spec. unfold SFleb, fkey. rewrite SFcompare_key.
  destruct (key (Prim2SF x)) as [a |], (key (Prim2SF y)) as [b |].
  - destruct (lex a b) eqn:E; split; intros H; try discriminate; try reflexivity.
    + exists a, b. repeat split. right. apply lex_Eq, E.
    + exists a, b. repeat split. left. apply lex_Lt, E.
    + destruct H as (a' & b' & Ea & Eb & H). injection Ea as <-. injection Eb as <-.
      destruct H as [H | H]; [apply lex_Lt in H | apply lex_Eq in H]; congruence.
  - split; [discriminate | intros (a' & b' & _ & Eb & _); discriminate].
  - split; [discriminate | intros (a' & b' & Ea & _ & _); discriminate].
  - split; [discriminate | intros (a' & b' & Ea & _ & _); discriminate].
Qed.

Lemma is_nan_key (x : float) : is_nan x = false <-> exists a, fkey x = Some a.
Proof.
  unfold is_nan. rewrite FloatAxioms.eqb_spec. unfold SFeqb, fkey. rewrite SFcompare_key.
  destruct (key (Prim2SF x)) as [a |].
  - replace (lex a a) with Eq by (symmetry; apply lex_Eq; reflexivity).
    split; [eauto | reflexivity].
  - split; [discriminate | intros [a E]; discriminate].
Qed.

Lemma lex_lt_trans a b c : lex_lt a b -> lex_lt b c -> lex_lt a c.
Proof.
  destruct a as [[a1 a2] a3], b as [[b1 b2] b3], c as [[c1 c2] c3].
  unfold lex_lt. lia.
Qed.

Lemma lex_total a b : lex_lt a b \/ a = b \/ lex_lt b a.
Proof.
  destruct (lex a b) eqn:E.
  - right; left. apply lex_Eq, E.
  - left. apply lex_Lt, E.
  - right; right. apply lex_Gt, E.
Qed.

Lemma lex_lt_irrefl a : ~ lex_lt a a.
Proof. destruct a as [[a1 a2] a3]. unfold lex_lt. lia. Qed.

(** Among non-NaN values, [x <? y] failing means [y <=? x]. *)
Lemma ltb_false_leb (x y : float) :
  is_nan x = false -> is_nan y = false ->
  (x <? y)%float = false -> (y <=? x)%float = true.
Proof.
  intros Hx Hy H. apply is_nan_key in Hx, Hy.
  destruct Hx as [a Ea], Hy as [b Eb].
  apply leb_key. exists b, a. repeat split; try assumption.
  destruct (lex_total a b) as [L | [L | L]]; [| right; congruence | left; exact L].
  exfalso. assert ((x <? y)%float = true) by (apply ltb_key; eauto). congruence.
Qed.

Lemma leb_trans (x y z : float) :
  (x <=? y)%float = true -> (y <=? z)%float = true -> (x <=? z)%float = true.
Proof.
  rewrite !leb_key. intros (a & b & Ea & Eb & H1) (b' & c & Eb' & Ec & H2).
  assert (b' = b) by congruence. subst b'.
  exists a, c. repeat split; try assumption.
  destruct H1 as [H1 | ->], H2 as [H2 | ->]; auto.
  left. eapply lex_lt_trans; eassumption.
Qed.

Lemma ltb_leb_trans (x y z : float) :
  (x <? y)%float = true -> (y <=? z)%float = true -> (x <? z)%float = true.
Proof.
  rewrite !ltb_key, leb_key. intros (a & b & Ea & Eb & H1) (b' & c & Eb' & Ec & H2).
  assert (b' = b) by congruence. subst b'.
  exists a, c. repeat split; try assumption.
  destruct H2 as [H2 | ->]; auto. eapply lex_lt_trans; eassumption.
Qed.

Lemma ltb_leb (x y : float) : (x <? y)%float = true -> (x <=? y)%float = true.
Proof.
  rewrite ltb_key, leb_key. intros (a & b & Ea & Eb & H). exists a, b. auto.
Qed.

Lemma ltb_not_nan (x y : float) :
  (x <? y)%float = true -> is_nan x = false /\ is_nan y = false.
Proof.
  rewrite ltb_key, !is_nan_key. intros (a & b & Ea & Eb & _). eauto.
Qed.

Lemma leb_not_nan (x y : float) :
  (x <=? y)%float = true -> is_nan x = false /\ is_nan y = false.
Proof.
  rewrite leb_key, !is_nan_key. intros (a & b & Ea & Eb & _). eauto.
Qed.

Lemma leb_infinity (x : float) : is_nan x = false -> (x <=? infinity)%float = true.
Proof.
  intros Hx. apply is_nan_key in Hx. destruct Hx as [a Ea].
  apply leb_key. exists a, (2, 0, 0)%Z. repeat split; try assumption.
  unfold fkey in Ea. destruct (Prim2SF x) as [s | s | | s m e]; try destruct s;
    cbn in Ea; try discriminate; injection Ea as <-; unfold lex_lt; try lia.
  right; reflexivity.
Qed.

Lemma leb_refl (x : float) : is_nan x = false -> (x <=? x)%float = true.
Proof.
  intros Hx. apply is_nan_key in Hx. destruct Hx as [a Ea].
  apply leb_key. exists a, a. auto.
Qed.

Lemma eqb_leb (x y : float) : (x =? y)%float = true -> (x <=? y)%float = true.
Proof.
  rewrite FloatAxioms.eqb_spec, FloatAxioms.leb_spec. unfold SFeqb, SFleb.
  destruct (SFcompare (Prim2SF x) (Prim2SF y)) as [[| |] |];
    intros; try discriminate; reflexivity.
Qed.

Lemma ltb_not_leb (x y : float) : (x <? y)%float = true -> (y <=? x)%float = false.
Proof.
  intros H. destruct (y <=? x)%float eqn:E; [| reflexivity].
  apply ltb_key in H. apply leb_key in E.
  destruct H as (a & b & Ea & Eb & H), E as (b' & a' & Eb' & Ea' & E).
  assert (a' = a) by congruence. assert (b' = b) by congruence. subst.
  exfalso. destruct E as [E | E].
  - apply (lex_lt_irrefl a). eapply lex_lt_trans; eassumption.
  - subst. apply (lex_lt_irrefl a), H.
Qed.

Lemma fill_inf_not_nan (v : float) : is_nan (Day.fill_inf v) = false.
Proof.
  unfold Day.fill_inf. destruct (is_nan v) eqn:E; [reflexivity | exact E].
Qed.

Lemma fill_inf_id (v : float) : is_nan v = false -> Day.fill_inf v = v.
Proof. unfold Day.fill_inf. intros ->. reflexivity. Qed.

End FloatOrder.

(** ** Properties of the day processor *)

Module DayFacts.

Import Day FloatOrder.
Local Open Scope float_scope.

(** *** [argmin] returns the first position of a least value *)

Definition first_min (l : list float) (k : nat) : Prop :=
  exists v,
    nth_error l k = Some v
    /\ (forall j w, nth_error l j = Some w -> (v <=? w) = true)
    /\ (forall j w, (j < k)%nat -> nth_error l j = Some w -> (v <? w) = true).

Lemma argmin_from_first_min (l pre : list float) (best : float) (best_i : nat) :
  Forall (fun v => is_nan v = false) (pre ++ l) ->
  nth_error pre best_i = Some best ->
  (forall j w, nth_error pre j = Some w -> (best <=? w) = true) ->
  (forall j w, (j < best_i)%nat -> nth_error pre j = Some w -> (best <? w) = true) ->
  first_min (pre ++ l) (argmin_from best best_i (List.length pre) l).
Proof.
  revert pre best best_i.
  induction l as [| v l IH]; intros pre best best_i Hnan Hb Hmin Hfirst.
  - rewrite app_nil_r. exists best. auto.
  - assert (Hv : is_nan v = false).
    { rewrite Forall_forall in Hnan. apply Hnan, in_or_app. right; left; reflexivity. }
    assert (Hbest : is_nan best = false).
    { rewrite Forall_forall in Hnan. apply Hnan, in_or_app. left.
      eapply nth_error_In, Hb. }
    assert (Hlen : List.length (pre ++ [v]) = S (List.length pre))
      by (rewrite length_app; simpl; lia).
    replace (pre ++ v :: l) with ((pre ++ [v]) ++ l) in *
      by (rewrite <- app_assoc; reflexivity).
    simpl. rewrite <- Hlen.
    destruct (v <? best) eqn:E.
    + apply IH.
      * exact Hnan.
      * rewrite nth_error_app2 by lia.
        replace (List.length pre - List.length pre)%nat with 0%nat by lia. reflexivity.
      * intros j w Hj.
        destruct (Nat.lt_ge_cases j (List.length pre)) as [Hlt | Hge].
        -- rewrite nth_error_app1 in Hj by exact Hlt.
           apply ltb_leb, (ltb_leb_trans v best w E), (Hmin j w Hj).
        -- rewrite nth_error_app2 in Hj by exact Hge.
           destruct (j - List.length pre)%nat as [| n]; simpl in Hj.
           ++ injection Hj as <-. apply leb_refl, Hv.
           ++ destruct n; discriminate.
      * intros j w Hlt Hj.
        rewrite nth_error_app1 in Hj by lia.
        apply (ltb_leb_trans v best w E), (Hmin j w Hj).
    + apply IH.
      * exact Hnan.
      * rewrite nth_error_app1; [exact Hb |].
        apply nth_error_Some. rewrite Hb. discriminate.
      * intros j w Hj.
        destruct (Nat.lt_ge_cases j (List.length pre)) as [Hlt | Hge].
        -- rewrite nth_error_app1 in Hj by exact Hlt. apply (Hmin j w Hj).
        -- rewrite nth_error_app2 in Hj by exact Hge.
           destruct (j - List.length pre)%nat as [| n]; simpl in Hj.
           ++ injection Hj as <-. apply ltb_false_leb; assumption.
           ++ destruct n; discriminate.
      * intros j w Hlt Hj.
        assert (best_i < List.length pre)%nat
          by (apply nth_error_Some; rewrite Hb; discriminate).
        rewrite nth_error_app1 in Hj by lia.
        apply (Hfirst j w Hlt Hj).
Qed.

Lemma np_argmin_first_min (l : list float) :
  l <> [] -> Forall (fun v => is_nan v = false) l ->
  first_min l (np_argmin l).
Proof.
  destruct l as [| v l]; [congruence |]. intros _ Hnan.
  assert (Hv : is_nan v = false) by (inversion Hnan; assumption).
  apply (argmin_from_first_min l [v] v 0).
  - exact Hnan.
  - reflexivity.
  - intros [| [| j]] w Hj; simpl in Hj; try discriminate.
    injection Hj as <-. apply leb_refl, Hv.
  - intros j w Hlt. lia.
Qed.

Lemma forallb_is_nan_false (l : list float) :
  forallb is_nan l = false -> exists w, In w l /\ is_nan w = false.
Proof.
  induction l as [| v l IH]; simpl; [discriminate |].
  destruct (is_nan v) eqn:E; simpl.
  - intros H. destruct (IH H) as [w [Hw Hn]]. exists w. auto.
  - intros _. exists v. auto.
Qed.

Lemma series_argmin_spec (l : list float) :
  l <> [] ->
  (forallb is_nan l = true /\ series_argmin l = (-1)%Z)
  \/ (forallb is_nan l = false
      /\ exists k, series_argmin l = Z.of_nat k /\ first_min (map fill_inf l) k).
Proof.
  intros Hl. unfold series_argmin.
  destruct (forallb is_nan l) eqn:E; [left; auto | right].
  split; [reflexivity |]. eexists. split; [reflexivity |].
  apply np_argmin_first_min.
  - destruct l; [congruence | discriminate].
  - apply Forall_forall. intros w Hw. apply in_map_iff in Hw.
    destruct Hw as [v [<- _]]. apply fill_inf_not_nan.
Qed.

Lemma iloc_nth {A : Type} (l : list A) (k : nat) (a : A) :
  nth_error l k = Some a -> iloc l (Z.of_nat k) = Ok a.
Proof.
  intros H. unfold iloc.
  assert (k < List.length l)%nat by (apply nth_error_Some; rewrite H; discriminate).
  replace (Z.of_nat k <? 0)%Z with false by (symmetry; apply Z.ltb_ge; lia).
  replace (0 <=? Z.of_nat k)%Z with true by (symmetry; apply Z.leb_le; lia).
  replace (Z.of_nat k <? Z.of_nat (List.length l))%Z with true
    by (symmetry; apply Z.ltb_lt; lia).
  simpl. rewrite Nat2Z.id, H. reflexivity.
Qed.

Lemma iloc_last {A : Type} (l : list A) :
  l <> [] ->
  exists a, iloc l (-1) = Ok a /\ nth_error l (List.length l - 1) = Some a.
Proof.
  intros Hl. unfold iloc.
  assert (0 < List.length l)%nat by (destruct l; [congruence | simpl; lia]).
  destruct (nth_error l (List.length l - 1)) as [a |] eqn:E.
  - exists a. split; [| reflexivity]. simpl.
    replace (0 <=? Z.of_nat (List.length l) + -1)%Z with true
      by (symmetry; apply Z.leb_le; lia).
    replace (Z.of_nat (List.length l) + -1 <? Z.of_nat (List.length l))%Z with true
      by (symmetry; apply Z.ltb_lt; lia).
    simpl.
    replace (Z.to_nat (Z.of_nat (List.length l) + -1)) with (List.length l - 1)%nat by lia.
    rewrite E. reflexivity.
  - apply nth_error_None in E. lia.
Qed.

(** *** The nearest row *)

(** Row [rk], at position [i] of [df_m], is nearest to [target]: its
    distance is least, a NaN distance counting as +infinity, and, unless
    every distance is NaN, it is the first row of least distance. *)
Definition nearest_at (df_m : list (row * float)) (target : float)
    (i : nat) (rk : row * float) : Prop :=
  nth_error df_m i = Some rk
  /\ (forall j rk', nth_error df_m j = Some rk' ->
        (fill_inf (distance target (snd rk))
           <=? fill_inf (distance target (snd rk'))) = true)
  /\ ((exists rk', In rk' df_m /\ is_nan (distance target (snd rk')) = false) ->
      forall j rk', (j < i)%nat -> nth_error df_m j = Some rk' ->
        (fill_inf (distance target (snd rk))
           <? fill_inf (distance target (snd rk'))) = true).

Lemma nearest_spec (df_m : list (row * float)) (target : float) :
  df_m <> [] ->
  exists i rk, nearest df_m target = Ok rk /\ nearest_at df_m target i rk.
Proof.
  intros Hne. unfold nearest.
  set (ds := map (fun rk => distance target (snd rk)) df_m).
  assert (Hds : ds <> []) by (destruct df_m; [congruence | discriminate]).
  destruct (series_argmin_spec ds Hds) as [[Hall ->] | [Hsome [k [-> Hk]]]].
  - destruct (iloc_last df_m Hne) as [rk [Hrk Hnth]].
    exists (List.length df_m - 1)%nat, rk. split; [exact Hrk |].
    assert (Hnan : forall rk', In rk' df_m ->
                     is_nan (distance target (snd rk')) = true).
    { intros rk' Hin. rewrite forallb_forall in Hall. apply Hall.
      unfold ds. apply in_map_iff. exists rk'. auto. }
    split; [exact Hnth | split].
    + intros j rk' Hj. unfold fill_inf.
      rewrite (Hnan rk) by (eapply nth_error_In; exact Hnth).
      rewrite (Hnan rk') by (eapply nth_error_In; exact Hj).
      reflexivity.
    + intros [rk' [Hin Hn]]. rewrite (Hnan rk' Hin) in Hn. discriminate.
  - destruct Hk as [v [Hv [Hmin Hfirst]]].
    unfold ds in Hv. rewrite !nth_error_map in Hv.
    destruct (nth_error df_m k) as [rk |] eqn:Ek; [| discriminate].
    simpl in Hv. injection Hv as <-.
    exists k, rk. split; [apply iloc_nth, Ek |].
    split; [exact Ek | split].
    + intros j rk' Hj. apply (Hmin j).
      unfold ds. rewrite !nth_error_map, Hj. reflexivity.
    + intros _ j rk' Hlt Hj. apply (Hfirst j); [exact Hlt |].
      unfold ds. rewrite !nth_error_map, Hj. reflexivity.
Qed.

(** When every distance is a number, the nearest row is the first row of
    least distance in the plain order of floats. *)
Lemma nearest_at_numbers (df_m : list (row * float)) (target : float)
    (i : nat) (rk : row * float) :
  nearest_at df_m target i rk ->
  (forall rk', In rk' df_m -> is_nan (distance target (snd rk')) = false) ->
  (forall rk', In rk' df_m ->
     (distance target (snd rk) <=? distance target (snd rk')) = true)
  /\ (forall j rk', (j < i)%nat -> nth_error df_m j = Some rk' ->
        (distance target (snd rk) <? distance target (snd rk')) = true).
Proof.
  intros [Hi [Hmin Hfirst]] Hnum.
  assert (Hrk : In rk df_m) by (eapply nth_error_In; exact Hi).
  split.
  - intros rk' Hin. destruct (In_nth_error _ _ Hin) as [j Hj].
    pose proof (Hmin j rk' Hj) as H.
    rewrite !fill_inf_id in H by (apply Hnum; assumption). exact H.
  - intros j rk' Hlt Hj.
    assert (Hin : In rk' df_m) by (eapply nth_error_In; exact Hj).
    pose proof (Hfirst (ex_intro _ rk (conj Hrk (Hnum rk Hrk))) j rk' Hlt Hj) as H.
    rewrite !fill_inf_id in H by (apply Hnum; assumption). exact H.
Qed.

(** Row [rk], at position [i], is the first row of least distance to
    [target], in the plain order of floats. *)
Definition first_nearest (df_m : list (row * float)) (target : float)
    (i : nat) (rk : row * float) : Prop :=
  nth_error df_m i = Some rk
  /\ (forall rk', In rk' df_m ->
        (distance target (snd rk) <=? distance target (snd rk')) = true)
  /\ (forall j rk', (j < i)%nat -> nth_error df_m j = Some rk' ->
        (distance target (snd rk) <? distance target (snd rk')) = true).

Lemma nearest_at_first_nearest (df_m : list (row * float)) (target : float)
    (i : nat) (rk : row * float) :
  nearest_at df_m target i rk ->
  (forall rk', In rk' df_m -> is_nan (distance target (snd rk')) = false) ->
  first_nearest df_m target i rk.
Proof.
  intros H Hnum. split; [apply H | apply nearest_at_numbers; assumption].
Qed.

Lemma nearest_nonempty (df_m : list (row * float)) (target : float)
    (rk : row * float) :
  nearest df_m target = Ok rk -> df_m <> [].
Proof. intros H ->. discriminate. Qed.

(** *** The next-month label *)

Lemma next_month_spec (d : date) :
  (1 <= month d <= 12)%nat ->
  next_month d = strftime_Ym (add_one_month d)
  /\ (12 * year (add_one_month d) + month (add_one_month d)
      = 12 * year d + month d + 1)%nat
  /\ (1 <= month (add_one_month d) <= 12)%nat.
Proof.
  intros Hm. split; [reflexivity |]. unfold add_one_month. simpl.
  destruct (12 <? month d + 1)%nat eqn:E.
  - apply Nat.ltb_lt in E. lia.
  - apply Nat.ltb_ge in E. lia.
Qed.

Section Processor.

Variable float_of_str : string -> option float.
Variable numeric_of_str : string -> option float.
Variable yf_history : string -> date -> result (list bar).
Variable bs_call_price bs_put_price :
  float -> float -> float -> float -> float -> result (option float).
Variable implied_vol_put :
  float -> float -> float -> float -> float -> result (option float).

Local Abbreviation to_numeric := (to_numeric numeric_of_str).
Local Abbreviation candidates := (candidates numeric_of_str).
Local Abbreviation select_contracts := (select_contracts numeric_of_str).
Local Abbreviation resolve_spot := (resolve_spot float_of_str yf_history).
Local Abbreviation price_record :=
  (price_record float_of_str bs_call_price bs_put_price implied_vol_put).
Local Abbreviation process_code :=
  (process_code float_of_str numeric_of_str yf_history
     bs_call_price bs_put_price implied_vol_put).
Local Abbreviation process_codes :=
  (process_codes float_of_str numeric_of_str yf_history
     bs_call_price bs_put_price implied_vol_put).
Local Abbreviation process_one_day :=
  (process_one_day float_of_str numeric_of_str yf_history
     bs_call_price bs_put_price implied_vol_put).

(** The rows a strike is chosen from. *)
Definition kept (trade_date : date) (r : row) : bool :=
  String.eqb (strip (contract_month r)) (next_month trade_date)
  && negb (is_nan (to_numeric (strike_price r))).

Lemma candidates_rows (df_code : list row) (trade_date : date) :
  map fst (candidates df_code trade_date) = filter (kept trade_date) df_code.
Proof.
  unfold Day.candidates, dropna, with_strike, expiry_rows, kept.
  induction df_code as [| r l IH]; [reflexivity |]. simpl.
  destruct (String.eqb (strip (contract_month r)) (next_month trade_date));
    simpl; [| exact IH].
  destruct (is_nan (to_numeric (strike_price r))); simpl; [exact IH |].
  f_equal. exact IH.
Qed.

Lemma candidates_strike (df_code : list row) (trade_date : date) (rk : row * float) :
  In rk (candidates df_code trade_date) ->
  snd rk = to_numeric (strike_price (fst rk))
  /\ is_nan (snd rk) = false
  /\ In (fst rk) df_code
  /\ strip (contract_month (fst rk)) = next_month trade_date.
Proof.
  unfold Day.candidates, dropna, with_strike, expiry_rows.
  intros H. apply filter_In in H. destruct H as [H Hn].
  apply in_map_iff in H. destruct H as [r [<- Hr]].
  apply filter_In in Hr. destruct Hr as [Hr He]. simpl in *.
  repeat split.
  - apply negb_true_iff, Hn.
  - exact Hr.
  - apply String.eqb_eq, He.
Qed.

Lemma unparsable_strike_dropped (df_code : list row) (trade_date : date)
    (r : row) (s : string) :
  strike_price r = Str s -> numeric_of_str s = None ->
  ~ In r (map fst (candidates df_code trade_date)).
Proof.
  intros Hs Hp Hin. rewrite candidates_rows in Hin.
  apply filter_In in Hin. destruct Hin as [_ Hk]. unfold kept in Hk.
  apply andb_true_iff in Hk. destruct Hk as [_ Hk].
  unfold Day.to_numeric in Hk. rewrite Hs, Hp in Hk. discriminate.
Qed.

(** *** No exception in the selector *)

Lemma py_div_ok (x y : float) : (y <=? 0) = false -> py_div x y = Ok (x / y).
Proof.
  intros H. unfold py_div. destruct (y =? 0) eqn:E; [| reflexivity].
  apply eqb_leb in E. congruence.
Qed.

Lemma resolve_spot_not_le (first : row) (code : string) (trade_date : date)
    (spot : float) :
  resolve_spot first code trade_date = Some spot -> (spot <=? 0) = false.
Proof.
  unfold Day.resolve_spot.
  set (s1 := try_except _ None).
  set (s2 := if none_or_nonpositive s1 then _ else s1).
  destruct (none_or_nonpositive s2) eqn:E; [discriminate |].
  intros ->. exact E.
Qed.

(** What the selector returns, in terms of the nearest rows and the band. *)
Lemma select_contracts_eq (df_code : list row) (spot : float) (trade_date : date) :
  (spot <=? 0) = false ->
  candidates df_code trade_date <> [] ->
  exists call_row put_row,
    nearest (candidates df_code trade_date) (spot * 1.05) = Ok call_row
    /\ nearest (candidates df_code trade_date) (spot * 0.95) = Ok put_row
    /\ select_contracts df_code spot trade_date =
       Ok (if 0.20 <? abs (snd call_row - spot) / spot then None
           else if 0.20 <? abs (snd put_row - spot) / spot then None
           else Some (call_row, put_row)).
Proof.
  intros Hs Hne.
  destruct (nearest_spec _ (spot * 1.05) Hne) as [i [call_row [Hc _]]].
  destruct (nearest_spec _ (spot * 0.95) Hne) as [j [put_row [Hp _]]].
  exists call_row, put_row. split; [exact Hc | split; [exact Hp |]].
  unfold Day.select_contracts.
  destruct (expiry_rows df_code trade_date) eqn:Ee.
  { exfalso. apply Hne. unfold Day.candidates. rewrite Ee. reflexivity. }
  fold (candidates df_code trade_date).
  destruct (candidates df_code trade_date) eqn:Ec; [congruence |].
  rewrite Hc, Hp. simpl. rewrite !py_div_ok by exact Hs. simpl.
  destruct (0.20 <? abs (snd call_row - spot) / spot); [reflexivity |].
  destruct (0.20 <? abs (snd put_row - spot) / spot); reflexivity.
Qed.

Lemma select_contracts_empty (df_code : list row) (spot : float) (trade_date : date) :
  candidates df_code trade_date = [] ->
  select_contracts df_code spot trade_date = Ok None.
Proof.
  intros He. unfold Day.select_contracts.
  destruct (expiry_rows df_code trade_date); [reflexivity |].
  fold (candidates df_code trade_date). rewrite He. reflexivity.
Qed.

Lemma select_contracts_total (df_code : list row) (spot : float) (trade_date : date) :
  (spot <=? 0) = false ->
  exists o, select_contracts df_code spot trade_date = Ok o.
Proof.
  intros Hs. destruct (candidates df_code trade_date) eqn:E.
  - eexists. apply select_contracts_empty, E.
  - destruct (select_contracts_eq df_code spot trade_date Hs) as [cr [pr [_ [_ H]]]].
    + rewrite E. discriminate.
    + eexists. exact H.
Qed.


(** *** The loop body and the loop *)

Lemma process_code_total (df : list row) (trade_date_str : string)
    (trade_date : date) (code : string) :
  exists o, process_code df trade_date_str trade_date code = Ok o.
Proof.
  unfold Day.process_code.
  destruct (filter (fun r => String.eqb (code4 r) code) df) as [| first rest];
    [eexists; reflexivity |].
  destruct (resolve_spot first code trade_date) as [spot |] eqn:Es;
    [| eexists; reflexivity].
  destruct (select_contracts_total (first :: rest) spot trade_date
              (resolve_spot_not_le _ _ _ _ Es)) as [o Ho].
  rewrite Ho. simpl. destruct o as [[call_row put_row] |]; eexists; reflexivity.
Qed.

(** The outcome for a code reads the rows of that code only. *)
Lemma process_code_local (df df' : list row) (trade_date_str : string)
    (trade_date : date) (code : string) :
  filter (fun r => String.eqb (code4 r) code) df'
  = filter (fun r => String.eqb (code4 r) code) df ->
  process_code df' trade_date_str trade_date code
  = process_code df trade_date_str trade_date code.
Proof. intros H. unfold Day.process_code. rewrite H. reflexivity. Qed.

Lemma process_code_rec_code (df : list row) (trade_date_str : string)
    (trade_date : date) (code : string) (rec : record) :
  process_code df trade_date_str trade_date code = Ok (Some rec) ->
  rec_code rec = code.
Proof.
  unfold Day.process_code.
  destruct (filter (fun r => String.eqb (code4 r) code) df) as [| first rest];
    [discriminate |].
  destruct (resolve_spot first code trade_date) as [spot |]; [| discriminate].
  destruct (select_contracts (first :: rest) spot trade_date)
    as [[[call_row put_row] |] | e]; simpl; try discriminate.
  intros E. injection E as <-. reflexivity.
Qed.

(** The records of a code, as the loop appends them. *)
Definition records_of (df : list row) (trade_date_str : string)
    (trade_date : date) (code : string) : list record :=
  match process_code df trade_date_str trade_date code with
  | Ok (Some rec) => [rec]
  | _ => []
  end.

Lemma process_codes_flat_map (codes : list string) (df : list row)
    (trade_date_str : string) (trade_date : date) :
  process_codes codes df trade_date_str trade_date
  = Ok (flat_map (records_of df trade_date_str trade_date) codes).
Proof.
  induction codes as [| code codes IH]; [reflexivity |].
  simpl. unfold records_of at 1.
  destruct (process_code_total df trade_date_str trade_date code) as [o Ho].
  rewrite Ho, IH. simpl. destruct o; reflexivity.
Qed.

Lemma process_codes_no_record (codes : list string) (df : list row)
    (trade_date_str : string) (trade_date : date) (code : string)
    (records : list record) :
  process_code df trade_date_str trade_date code = Ok None ->
  process_codes codes df trade_date_str trade_date = Ok records ->
  forall rec, In rec records -> rec_code rec <> code.
Proof.
  intros Hnone Hrecs rec Hin Hcode.
  rewrite process_codes_flat_map in Hrecs. injection Hrecs as <-.
  apply in_flat_map in Hin. destruct Hin as [c [_ Hin]].
  unfold records_of in Hin.
  destruct (process_code df trade_date_str trade_date c) as [[rec' |] | e] eqn:E;
    simpl in Hin; try contradiction.
  destruct Hin as [-> | []].
  pose proof (process_code_rec_code _ _ _ _ _ E) as Hc.
  rewrite Hcode in Hc. subst c. rewrite Hnone in E. discriminate.
Qed.

(** C6. Sanity band.  When the selected call strike, or the selected put
    strike, is more than 20% of the spot away from the spot, the underlying
    is skipped: the loop body yields no record and the day's records hold
    none of that code.  With spot 100 and strikes 70 and 130 only, the
    nearest strike to the call target is 130, its relative distance to
    the spot exceeds 0.20, and no record is emitted. *)
Theorem sanity_band :
  (forall (df : list row) (trade_date_str : string) (trade_date : date)
          (code : string) (first : row) (rest : list row) (spot : float)
          (call_row put_row : row * float),
     filter (fun r => String.eqb (code4 r) code) df = first :: rest ->
     resolve_spot first code trade_date = Some spot ->
     nearest (candidates (first :: rest) trade_date) (spot * 1.05) = Ok call_row ->
     nearest (candidates (first :: rest) trade_date) (spot * 0.95) = Ok put_row ->
     (0.20 <? abs (snd call_row - spot) / spot) = true
     \/ (0.20 <? abs (snd put_row - spot) / spot) = true ->
     select_contracts (first :: rest) spot trade_date = Ok None
     /\ process_code df trade_date_str trade_date code = Ok None
     /\ forall records,
          process_one_day (Some df) trade_date_str trade_date = Ok records ->
          forall rec, In rec records -> rec_code rec <> code)
  /\ (exists r130,
        nearest (Day.candidates no_text chain_far trade_day) (100 * 1.05)
        = Ok (r130, 130)
        /\ (0.20 <? abs (130 - 100) / 100) = true)
  /\ Day.process_code no_text no_text no_history
       intrinsic_call intrinsic_put no_inversion
       chain_far "2025-10-08" trade_day "7203" = Ok None
  /\ Day.process_one_day no_text no_text no_history
       intrinsic_call intrinsic_put no_inversion
       (Some chain_far) "2025-10-08" trade_day = Ok [].
Proof.
  split; [| split; [| split]].
  - intros df trade_date_str trade_date code first rest spot call_row put_row
      Hf Hs Hc Hp Hband.
    pose proof (resolve_spot_not_le _ _ _ _ Hs) as Hle.
    pose proof (nearest_nonempty _ _ _ Hc) as Hne.
    destruct (select_contracts_eq (first :: rest) spot trade_date Hle Hne)
      as [cr [pr [Hc' [Hp' Heq]]]].
    rewrite Hc in Hc'. rewrite Hp in Hp'. injection Hc' as <-. injection Hp' as <-.
    assert (Hsel : select_contracts (first :: rest) spot trade_date = Ok None).
    { rewrite Heq. destruct Hband as [-> | H]; [reflexivity |].
      rewrite H. destruct (0.20 <? abs (snd call_row - spot) / spot); reflexivity. }
    assert (Hpc : process_code df trade_date_str trade_date code = Ok None).
    { unfold Day.process_code. rewrite Hf, Hs, Hsel. reflexivity. }
    split; [exact Hsel | split; [exact Hpc |]].
    intros records Hrecs. unfold Day.process_one_day in Hrecs.
    exact (process_codes_no_record _ _ _ _ _ _ Hpc Hrecs).
  - eexists. split; vm_compute; reflexivity.
  - vm_compute. reflexivity.
  - vm_compute. reflexivity.
Qed.

(** What the pricing step guarantees about a record, given the call row
    and the put row it was built from. *)
Definition priced (rec : record) (call_row put_row : row) : Prop :=
  let T := 30 / 365 in
  let r := 0 in
  call_price rec = call_close call_row
  /\ put_price rec = put_close put_row
  /\ asset_iv rec = base_iv call_row
  (* the call-side volatility *)
  /\ (forall e, py_float float_of_str (call_iv call_row) = Raise e ->
        sigma_call rec = None)
  /\ (forall v, py_float float_of_str (call_iv call_row) = Ok v ->
        (v <=? 0) = true -> sigma_call rec = None)
  /\ (forall v, py_float float_of_str (call_iv call_row) = Ok v ->
        (v <=? 0) = false -> sigma_call rec = Some v)
  (* the theoretical prices *)
  /\ (sigma_call rec = None -> call_theo rec = None /\ put_theo rec = None)
  /\ (forall sigma c p, sigma_call rec = Some sigma ->
        bs_call_price (rec_spot rec) (call_strike rec) T r sigma = Ok c ->
        bs_put_price (rec_spot rec) (put_strike rec) T r sigma = Ok p ->
        call_theo rec = c /\ put_theo rec = p)
  /\ (forall sigma e, sigma_call rec = Some sigma ->
        bs_call_price (rec_spot rec) (call_strike rec) T r sigma = Raise e ->
        call_theo rec = None /\ put_theo rec = None)
  /\ (forall sigma c e, sigma_call rec = Some sigma ->
        bs_call_price (rec_spot rec) (call_strike rec) T r sigma = Ok c ->
        bs_put_price (rec_spot rec) (put_strike rec) T r sigma = Raise e ->
        call_theo rec = c /\ put_theo rec = None)
  (* the put implied volatility *)
  /\ (forall p, py_float float_of_str (put_price rec) = Ok p -> (0 <? p) = true ->
        put_iv rec
        = try_except (implied_vol_put (rec_spot rec) (put_strike rec) T r p) None)
  /\ (forall p, py_float float_of_str (put_price rec) = Ok p -> (0 <? p) = false ->
        put_iv rec = None)
  /\ (forall e, py_float float_of_str (put_price rec) = Raise e ->
        put_iv rec = None).

Lemma price_record_priced (trade_date_str code : string) (spot : float)
    (next_month : string) (call_row put_row : row * float) :
  priced (price_record trade_date_str code spot next_month call_row put_row)
         (fst call_row) (fst put_row).
Proof.
  unfold priced, Day.price_record. simpl.
  split; [reflexivity | split; [reflexivity | split; [reflexivity |]]].
  unfold usable_sigma, theo_prices, derive_put_iv.
  split; [intros e ->; reflexivity |].
  split; [intros v -> Hv; simpl; rewrite Hv; reflexivity |].
  split; [intros v -> Hv; simpl; rewrite Hv; reflexivity |].
  split; [intros ->; split; reflexivity |].
  split; [intros sigma c p -> -> ->; split; reflexivity |].
  split; [intros sigma e -> ->; split; reflexivity |].
  split; [intros sigma c e -> -> ->; split; reflexivity |].
  split; [intros p -> Hp; simpl; rewrite Hp; simpl;
          destruct (implied_vol_put _ _ _ _ _); reflexivity |].
  split; [intros p -> Hp; simpl; rewrite Hp; reflexivity |].
  intros e ->. reflexivity.
Qed.



(** *** Spot resolution *)

(** The chain's value is kept as soon as it parses and [<= 0] fails on it;
    otherwise the value of the price source is taken, if [<= 0] fails on
    that one. *)
Lemma resolve_spot_spec (first : row) (code : string) (trade_date : date) :
  (forall s, py_float float_of_str (underlying_close first) = Ok s ->
     (s <=? 0) = false ->
     resolve_spot first code trade_date = Some s)
  /\ (forall s, py_float float_of_str (underlying_close first) = Ok s ->
       (s <=? 0) = true ->
       resolve_spot first code trade_date
       = if none_or_nonpositive (get_stock_price_from_yf yf_history code trade_date)
         then None else get_stock_price_from_yf yf_history code trade_date)
  /\ (forall e, py_float float_of_str (underlying_close first) = Raise e ->
       resolve_spot first code trade_date
       = if none_or_nonpositive (get_stock_price_from_yf yf_history code trade_date)
         then None else get_stock_price_from_yf yf_history code trade_date).
Proof.
  unfold Day.resolve_spot. repeat split.
  - intros s -> Hs. simpl. rewrite Hs. simpl. rewrite Hs. reflexivity.
  - intros s -> Hs. simpl. rewrite Hs. reflexivity.
  - intros e ->. reflexivity.
Qed.

(** A positive chain value is the spot. *)
Lemma resolve_spot_positive (first : row) (code : string) (trade_date : date)
    (s : float) :
  py_float float_of_str (underlying_close first) = Ok s -> (0 <? s) = true ->
  resolve_spot first code trade_date = Some s.
Proof.
  intros Hs Hpos. apply (resolve_spot_spec first code trade_date); [exact Hs |].
  apply ltb_not_leb, Hpos.
Qed.

Lemma filter_last {A : Type} (f : A -> bool) (l xs : list A) (b : A) :
  filter f l = xs ++ [b] ->
  exists pre post,
    l = pre ++ b :: post /\ f b = true /\ Forall (fun x => f x = false) post.
Proof.
  revert xs. induction l as [| h t IH]; intros xs H; simpl in H.
  - destruct xs; discriminate.
  - destruct (f h) eqn:Eh.
    + destruct xs as [| x xs]; simpl in H.
      * injection H as -> Ht. exists [], t. repeat split; [exact Eh |].
        apply Forall_forall. intros x Hx.
        destruct (f x) eqn:Ex; [| reflexivity].
        assert (In x (filter f t)) by (apply filter_In; auto).
        rewrite Ht in H. contradiction.
      * injection H as -> Ht. destruct (IH xs Ht) as [pre [post [-> [Hb Hp]]]].
        exists (x :: pre), post. auto.
    + destruct (IH xs H) as [pre [post [-> [Hb Hp]]]].
      exists (h :: pre), post. auto.
Qed.

(** The price source answers with the close of the last bar of the history
    that is on or before the trading date. *)
Lemma get_stock_price_from_yf_spec (code : string) (trade_date : date) (p : float) :
  get_stock_price_from_yf yf_history code trade_date = Some p ->
  exists pre b post,
    yf_history code trade_date = Ok (pre ++ b :: post)
    /\ bar_close b = p
    /\ date_leb (bar_index b) trade_date = true
    /\ Forall (fun b' => date_leb (bar_index b') trade_date = false) post.
Proof.
  unfold Day.get_stock_price_from_yf.
  destruct (yf_history code trade_date) as [hist | e]; [| discriminate].
  destruct hist as [| h t]; [discriminate |].
  destruct (rev (filter (fun b => date_leb (bar_index b) trade_date) (h :: t)))
    as [| b l] eqn:E; [discriminate |].
  intros H. injection H as <-.
  assert (E' : filter (fun b => date_leb (bar_index b) trade_date) (h :: t)
               = rev l ++ [b]).
  { rewrite <- (rev_involutive (filter _ (h :: t))), E. reflexivity. }
  destruct (filter_last _ _ _ _ E') as [pre [post [-> [Hb Hp]]]].
  exists pre, b, post. auto.
Qed.

End Processor.

(** C7, at a chain whose underlying close is missing (NaN) while the price
    source has a close of 2500 on the trading day: the price source is not
    consulted, the spot stays NaN, and a record with that spot is emitted.
    The guard [spot <= 0] is false on NaN. *)
Theorem missing_spot_not_resolved :
  underlying_close (quote "202511" 90 nan) = Num nan
  /\ get_stock_price_from_yf quoted_history "7203" trade_day = Some 2500
  /\ resolve_spot no_text quoted_history (quote "202511" 90 nan) "7203" trade_day
     = Some nan
  /\ exists rec,
      process_one_day no_text no_text quoted_history
        intrinsic_call intrinsic_put no_inversion
        (Some chain_missing_spot) "2025-10-08" trade_day = Ok [rec]
      /\ is_nan (rec_spot rec) = true.
Proof.
  split; [reflexivity |].
  split; [vm_compute; reflexivity |].
  split; [vm_compute; reflexivity |].
  eexists. split; vm_compute; reflexivity.
Qed.


(** Two strikes at the same distance of the call target: the first row of
    the chain is taken. *)
Example tie_first_occurrence :
  nearest (candidates no_text
             [quote "202511" 110 100; quote "202511" 100 100] trade_day)
          (100 * 1.05)
  = Ok (quote "202511" 110 100, 110%float)
  /\ distance (100 * 1.05) 110 = distance (100 * 1.05) 100.
Proof. split; vm_compute; reflexivity. Qed.

Lemma sanity_band_witness :
  select_contracts no_text chain_far 100 trade_day = Ok None
  /\ process_code no_text no_text no_history intrinsic_call intrinsic_put
       no_inversion chain_far "2025-10-08" trade_day "7203" = Ok None
  /\ forall records,
       process_one_day no_text no_text no_history intrinsic_call intrinsic_put
         no_inversion (Some chain_far) "2025-10-08" trade_day = Ok records ->
       forall rec, In rec records -> rec_code rec <> "7203"%string.
Proof.
  destruct (sanity_band no_text no_text no_history intrinsic_call intrinsic_put
              no_inversion) as [H _].
  apply (H chain_far "2025-10-08"%string trade_day "7203"%string
           (quote "202511" 70 100) [quote "202511" 130 100] 100
           (quote "202511" 130 100, 130) (quote "202511" 70 100, 70)).
  - vm_compute. reflexivity.
  - vm_compute. reflexivity.
  - vm_compute. reflexivity.
  - vm_compute. reflexivity.
  - left. vm_compute. reflexivity.
Defined.



End DayFacts.

(** ** Further properties of the pricing engine *)

Module PricingExtra.

Import Pricing PricingFacts.
Local Open Scope R_scope.

(** The value computed by [bs_call_price] past its guard. *)
Definition call_value (S K T r sigma : R) : R :=
  S * norm_cdf (d1 S K T r sigma)
  - K * exp (- r * T) * norm_cdf (d2 S K T r sigma).

(** The price of a result, 0 standing for [None]. *)
Definition price_of (o : option R) : R :=
  match o with
  | Some p => p
  | None => 0
  end.

Lemma bs_call_price_call_value (S K T r sigma : R) :
  0 < S -> 0 < K -> 0 < T -> 0 < sigma ->
  bs_call_price S K T r sigma = Some (call_value S K T r sigma).
Proof. intros. rewrite bs_call_price_valid by assumption. reflexivity. Qed.

Lemma call_value_put_value (S K T r sigma : R) :
  call_value S K T r sigma
  = put_value S K T r sigma + (S - K * exp (- r * T)).
Proof.
  unfold call_value, put_value.
  pose proof (norm_cdf_sym (d1 S K T r sigma)) as E1.
  pose proof (norm_cdf_sym (d2 S K T r sigma)) as E2.
  replace (norm_cdf (- d1 S K T r sigma)) with (1 - norm_cdf (d1 S K T r sigma)) by lra.
  replace (norm_cdf (- d2 S K T r sigma)) with (1 - norm_cdf (d2 S K T r sigma)) by lra.
  ring.
Qed.





Lemma guard_scale (lam S K T sigma : R) :
  0 < lam -> guard (lam * S) (lam * K) T sigma = guard S K T sigma.
Proof.
  intros Hl.
  assert (HS : lam * S <= 0 <-> S <= 0) by (split; intros; nra).
  assert (HK : lam * K <= 0 <-> K <= 0) by (split; intros; nra).
  destruct (guard S K T sigma) eqn:G.
  - apply guard_true_iff. apply guard_true_iff in G. tauto.
  - apply guard_false_iff. apply guard_false_iff in G.
    destruct G as [G1 [G2 G3]]. repeat split; try apply G3; nra.
Qed.

Lemma d1_scale (lam S K T r sigma : R) :
  0 < lam -> 0 < K ->
  d1 (lam * S) (lam * K) T r sigma = d1 S K T r sigma.
Proof.
  intros Hl HK. unfold d1.
  replace (lam * S / (lam * K)) with (S / K) by (field; lra). reflexivity.
Qed.



Lemma guard_swap (S K T sigma : R) : guard K S T sigma = guard S K T sigma.
Proof.
  destruct (guard S K T sigma) eqn:G.
  - apply guard_true_iff. apply guard_true_iff in G. tauto.
  - apply guard_false_iff. apply guard_false_iff in G. tauto.
Qed.

Lemma d1_swap (S K T r sigma : R) :
  0 < S -> 0 < K -> 0 < T -> 0 < sigma ->
  d1 K S T (- r) sigma = - d2 S K T r sigma
  /\ d2 K S T (- r) sigma = - d1 S K T r sigma.
Proof.
  intros HS HK HT Hs.
  assert (Hq : 0 < sqrt T) by (apply sqrt_lt_R0, HT).
  assert (Hqq : sqrt T * sqrt T = T) by (apply sqrt_sqrt; lra).
  assert (Hln : ln (K / S) = - ln (S / K)).
  { rewrite <- ln_Rinv by (apply Rdiv_lt_0_compat; assumption).
    f_equal. field. split; lra. }
  assert (E : d1 K S T (- r) sigma = - d2 S K T r sigma).
  { unfold d2, d1. rewrite Hln, lit_half.
    set (L := ln (S / K)). set (q := sqrt T) in *.
    rewrite <- Hqq. field. split; lra. }
  split; [exact E |]. unfold d2 at 1. rewrite E. unfold d2. ring.
Qed.


Section ImpliedVolOrder.

Variable brentq : (R -> result R) -> R -> R -> result R.
Hypothesis contract : brentq_contract brentq.


End ImpliedVolOrder.


End PricingExtra.

(** ** Further properties of the day processor *)

Module DayExtra.

Import Day FloatOrder DayFacts.
Local Open Scope float_scope.

Lemma filter_nil_iff {A : Type} (f : A -> bool) (l : list A) :
  filter f l = [] <-> Forall (fun x => f x = false) l.
Proof.
  induction l as [| h t IH]; simpl.
  - split; [constructor | reflexivity].
  - destruct (f h) eqn:E; split; intros H.
    + discriminate.
    + inversion H; congruence.
    + constructor; [exact E | apply IH, H].
    + inversion H; apply IH; assumption.
Qed.

Lemma strongly_sorted_before {A : Type} (R : A -> A -> Prop)
    (pre post : list A) (b : A) :
  Sorted.StronglySorted R (pre ++ b :: post) ->
  forall x, In x pre -> R x b.
Proof.
  induction pre as [| h t IH]; intros H x Hx; [contradiction |].
  simpl in H. apply Sorted.StronglySorted_inv in H. destruct H as [Ht Hh].
  destruct Hx as [<- | Hx].
  - rewrite Forall_forall in Hh. apply Hh, in_or_app. right; left; reflexivity.
  - apply (IH Ht x Hx).
Qed.

Lemma nodup_target_codes : NoDup TARGET_CODES.
Proof.
  unfold TARGET_CODES.
  repeat (constructor; [simpl; intuition discriminate |]). constructor.
Qed.

Section Processor.

Variable float_of_str : string -> option float.
Variable numeric_of_str : string -> option float.
Variable yf_history : string -> date -> result (list bar).
Variable bs_call_price bs_put_price :
  float -> float -> float -> float -> float -> result (option float).
Variable implied_vol_put :
  float -> float -> float -> float -> float -> result (option float).

Local Abbreviation to_numeric := (to_numeric numeric_of_str).
Local Abbreviation candidates := (candidates numeric_of_str).
Local Abbreviation select_contracts := (select_contracts numeric_of_str).
Local Abbreviation resolve_spot := (resolve_spot float_of_str yf_history).
Local Abbreviation get_stock_price_from_yf :=
  (get_stock_price_from_yf yf_history).
Local Abbreviation price_record :=
  (price_record float_of_str bs_call_price bs_put_price implied_vol_put).
Local Abbreviation process_code :=
  (process_code float_of_str numeric_of_str yf_history
     bs_call_price bs_put_price implied_vol_put).
Local Abbreviation process_codes :=
  (process_codes float_of_str numeric_of_str yf_history
     bs_call_price bs_put_price implied_vol_put).
Local Abbreviation process_one_day :=
  (process_one_day float_of_str numeric_of_str yf_history
     bs_call_price bs_put_price implied_vol_put).
Local Abbreviation records_of :=
  (records_of float_of_str numeric_of_str yf_history
     bs_call_price bs_put_price implied_vol_put).

(** X6. The price source answers with the close of the last bar of the
    history dated on or before the trading date, which in a history in
    time order is the most recent such bar; it answers [None] exactly when
    the history call raised or no bar is dated on or before the trading
    date (an empty history included). *)
Theorem price_source_answer (code : string) (trade_date : date) :
  (forall p, get_stock_price_from_yf code trade_date = Some p ->
     exists pre b post,
       yf_history code trade_date = Ok (pre ++ b :: post)
       /\ bar_close b = p
       /\ date_leb (bar_index b) trade_date = true
       /\ Forall (fun b' => date_leb (bar_index b') trade_date = false) post
       /\ (Sorted.StronglySorted
             (fun x y => date_leb (bar_index x) (bar_index y) = true)
             (pre ++ b :: post) ->
           forall b', In b' pre ->
             date_leb (bar_index b') (bar_index b) = true))
  /\ (get_stock_price_from_yf code trade_date = None <->
      (exists e, yf_history code trade_date = Raise e)
      \/ (exists hist,
            yf_history code trade_date = Ok hist
            /\ Forall (fun b => date_leb (bar_index b) trade_date = false) hist)).
Proof.
  split.
  - intros p Hp.
    destruct (get_stock_price_from_yf_spec yf_history code trade_date p Hp)
      as [pre [b [post [Hh [Hc [Hb Hpost]]]]]].
    exists pre, b, post. repeat (split; [assumption |]).
    intros Hs b' Hin. exact (strongly_sorted_before _ pre post b Hs b' Hin).
  - unfold Day.get_stock_price_from_yf.
    destruct (yf_history code trade_date) as [hist | e].
    + destruct hist as [| h t].
      * split; [| reflexivity]. intros _. right. exists []. split; [reflexivity | constructor].
      * destruct (rev (filter (fun b => date_leb (bar_index b) trade_date) (h :: t)))
          as [| b l] eqn:E.
        -- split; [| reflexivity]. intros _. right. exists (h :: t).
           split; [reflexivity |]. apply filter_nil_iff.
           rewrite <- (rev_involutive (filter _ (h :: t))), E. reflexivity.
        -- split; [discriminate |]. intros [[e He] | [hist [Hh Hall]]];
             [discriminate |].
           injection Hh as <-. apply filter_nil_iff in Hall.
           rewrite Hall in E. discriminate.
    + split; [| reflexivity]. intros _. left. exists e. reflexivity.
Qed.

Lemma process_codes_records (codes : list string) (df : list row)
    (trade_date_str : string) (trade_date : date) (records : list record) :
  process_codes codes df trade_date_str trade_date = Ok records ->
  records = flat_map (records_of df trade_date_str trade_date) codes.
Proof. rewrite process_codes_flat_map. intros H. injection H as <-. reflexivity. Qed.

(** What lies behind an emitted record. *)
Lemma process_code_some_inv (df : list row) (trade_date_str : string)
    (trade_date : date) (code : string) (rec : record) :
  process_code df trade_date_str trade_date code = Ok (Some rec) ->
  exists first rest spot call_row put_row,
    filter (fun r => String.eqb (code4 r) code) df = first :: rest
    /\ resolve_spot first code trade_date = Some spot
    /\ nearest (candidates (first :: rest) trade_date) (spot * 1.05) = Ok call_row
    /\ nearest (candidates (first :: rest) trade_date) (spot * 0.95) = Ok put_row
    /\ (0.20 <? abs (snd call_row - spot) / spot) = false
    /\ (0.20 <? abs (snd put_row - spot) / spot) = false
    /\ rec = price_record trade_date_str code spot (next_month trade_date)
               call_row put_row.
Proof.
  unfold Day.process_code.
  destruct (filter (fun r => String.eqb (code4 r) code) df)
    as [| first rest] eqn:Ef; [discriminate |].
  destruct (resolve_spot first code trade_date) as [spot |] eqn:Es;
    [| discriminate].
  destruct (select_contracts (first :: rest) spot trade_date)
    as [[[call_row put_row] |] | e] eqn:Esel; simpl; try discriminate.
  intros E. injection E as <-.
  pose proof (resolve_spot_not_le _ _ _ _ _ _ Es) as Hle.
  assert (Hne : candidates (first :: rest) trade_date <> []).
  { intros He. rewrite (select_contracts_empty _ _ _ _ He) in Esel. discriminate. }
  destruct (select_contracts_eq numeric_of_str (first :: rest) spot trade_date
              Hle Hne) as [cr [pr [Hc [Hp Heq]]]].
  rewrite Heq in Esel.
  destruct (0.20 <? abs (snd cr - spot) / spot) eqn:Bc; [discriminate |].
  destruct (0.20 <? abs (snd pr - spot) / spot) eqn:Bp; [discriminate |].
  injection Esel as <- <-.
  exists first, rest, spot, cr, pr. repeat split; assumption.
Qed.

Lemma nearest_candidate (df_code : list row) (trade_date : date)
    (target : float) (rk : row * float) :
  nearest (candidates df_code trade_date) target = Ok rk ->
  In rk (candidates df_code trade_date).
Proof.
  intros H. pose proof (nearest_nonempty _ _ _ H) as Hne.
  destruct (nearest_spec _ target Hne) as [i [rk' [H' [Hi _]]]].
  rewrite H in H'. injection H' as <-. eapply nth_error_In, Hi.
Qed.

Lemma usable_sigma_not_le (raw : cell) (v : float) :
  usable_sigma float_of_str raw = Some v -> (v <=? 0) = false.
Proof.
  unfold usable_sigma.
  destruct (py_float float_of_str raw) as [s | e]; simpl; [| discriminate].
  destruct (s <=? 0) eqn:E; [discriminate |].
  intros H. injection H as <-. exact E.
Qed.


(** Whether a code gets a record. *)
Definition has_record (df : list row) (trade_date_str : string)
    (trade_date : date) (code : string) : bool :=
  match process_code df trade_date_str trade_date code with
  | Ok (Some _) => true
  | _ => false
  end.

Lemma records_codes (codes : list string) (df : list row)
    (trade_date_str : string) (trade_date : date) :
  map rec_code (flat_map (records_of df trade_date_str trade_date) codes)
  = filter (has_record df trade_date_str trade_date) codes.
Proof.
  induction codes as [| code codes IH]; [reflexivity |].
  simpl. rewrite map_app, IH.
  unfold DayFacts.records_of at 1. unfold has_record at 2.
  destruct (process_code df trade_date_str trade_date code)
    as [[rec |] | e] eqn:E; simpl; try reflexivity.
  f_equal. apply (process_code_rec_code _ _ _ _ _ _ _ _ _ _ _ E).
Qed.

(** X8. The records of a day come one per watchlist code at most, in the
    order of the watchlist: their codes are the watchlist codes that got
    a record, in that order, so no code occurs twice. *)
Theorem one_record_per_code (df : list row) (trade_date_str : string)
    (trade_date : date) (records : list record) :
  process_one_day (Some df) trade_date_str trade_date = Ok records ->
  map rec_code records
  = filter (has_record df trade_date_str trade_date) TARGET_CODES
  /\ NoDup (map rec_code records)
  /\ (List.length records <= 28)%nat.
Proof.
  intros Hrecs. unfold Day.process_one_day in Hrecs.
  apply process_codes_records in Hrecs. subst records.
  pose proof (records_codes TARGET_CODES df trade_date_str trade_date) as E.
  split; [exact E | split].
  - rewrite E. apply NoDup_filter, nodup_target_codes.
  - rewrite <- (length_map rec_code), E.
    change 28%nat with (List.length TARGET_CODES). apply filter_length_le.
Qed.

(** X9. Spot resolution on numbers.  A chain close that parses to a
    positive number is the spot, whatever the price source holds.  A
    chain close that does not parse, or is zero or negative, hands over to
    the price source: its answer is the spot when positive, and the
    underlying is skipped when it has no answer or a zero or negative
    one. *)
Theorem spot_resolution_cases (first : row) (code : string) (trade_date : date) :
  (forall s, py_float float_of_str (underlying_close first) = Ok s ->
     (0 <? s) = true ->
     resolve_spot first code trade_date = Some s)
  /\ (forall p,
       (forall s, py_float float_of_str (underlying_close first) = Ok s ->
          (s <=? 0) = true) ->
       get_stock_price_from_yf code trade_date = Some p ->
       ((0 <? p) = true -> resolve_spot first code trade_date = Some p)
       /\ ((p <=? 0) = true -> resolve_spot first code trade_date = None))
  /\ ((forall s, py_float float_of_str (underlying_close first) = Ok s ->
         (s <=? 0) = true) ->
      get_stock_price_from_yf code trade_date = None ->
      resolve_spot first code trade_date = None).
Proof.
  destruct (resolve_spot_spec float_of_str yf_history first code trade_date)
    as [H1 [H2 H3]].
  split; [intros s Hs Hpos; apply (H1 s Hs), ltb_not_leb, Hpos |].
  assert (Hfb : (forall s, py_float float_of_str (underlying_close first) = Ok s ->
                   (s <=? 0) = true) ->
                resolve_spot first code trade_date
                = if none_or_nonpositive (get_stock_price_from_yf code trade_date)
                  then None else get_stock_price_from_yf code trade_date).
  { intros Hbad.
    destruct (py_float float_of_str (underlying_close first)) as [s | e] eqn:E.
    - apply (H2 s eq_refl), Hbad. reflexivity.
    - apply (H3 e eq_refl). }
  split.
  - intros p Hbad Hp. rewrite (Hfb Hbad), Hp. simpl. split.
    + intros Hpos. rewrite (ltb_not_leb _ _ Hpos). reflexivity.
    + intros ->. reflexivity.
  - intros Hbad Hp. rewrite (Hfb Hbad), Hp. reflexivity.
Qed.


End Processor.

(** *** White space around the expiry text *)

Definition all_space (s : string) : Prop :=
  Forall (fun c => is_space c = true) (list_ascii_of_string s).

Lemma list_ascii_of_string_app (a b : string) :
  list_ascii_of_string (a ++ b)
  = (list_ascii_of_string a ++ list_ascii_of_string b)%list.
Proof. induction a as [| c a IH]; simpl; [reflexivity | f_equal; exact IH]. Qed.

Lemma lstrip_spaces (l1 l : list ascii) :
  Forall (fun c => is_space c = true) l1 -> lstrip (l1 ++ l) = lstrip l.
Proof.
  induction 1 as [| c l1 Hc _ IH]; [reflexivity |]. simpl. rewrite Hc. exact IH.
Qed.

Lemma lstrip_nil (l : list ascii) :
  lstrip l = [] -> Forall (fun c => is_space c = true) l.
Proof.
  induction l as [| c l IH]; simpl; [constructor |].
  destruct (is_space c) eqn:E; [| discriminate].
  intros H. constructor; auto.
Qed.

Lemma lstrip_app (l l2 : list ascii) :
  lstrip l <> [] -> lstrip (l ++ l2) = (lstrip l ++ l2)%list.
Proof.
  induction l as [| c l IH]; simpl; [congruence |].
  destruct (is_space c); [exact IH | reflexivity].
Qed.

Lemma rstrip_spaces (l l2 : list ascii) :
  Forall (fun c => is_space c = true) l2 ->
  lstrip (rev (lstrip (l ++ l2))) = lstrip (rev (lstrip l)).
Proof.
  intros H2. destruct (lstrip l) as [| c t] eqn:E.
  - apply lstrip_nil in E.
    assert (Hall : Forall (fun c => is_space c = true) (l ++ l2))
      by (apply Forall_app; split; assumption).
    rewrite <- (app_nil_r (l ++ l2)), (lstrip_spaces _ [] Hall). reflexivity.
  - rewrite lstrip_app by (rewrite E; discriminate). rewrite E.
    rewrite rev_app_distr. apply lstrip_spaces, Forall_rev, H2.
Qed.

Lemma strip_padding (ws1 s ws2 : string) :
  all_space ws1 -> all_space ws2 -> strip (ws1 ++ s ++ ws2) = strip s.
Proof.
  intros H1 H2. unfold strip.
  rewrite !list_ascii_of_string_app, (lstrip_spaces _ _ H1).
  rewrite (rstrip_spaces _ _ H2). reflexivity.
Qed.

Lemma is_space_digit (n : nat) : is_space (digit n) = false.
Proof.
  unfold is_space, digit.
  assert (Hn : (n mod 10 < 10)%nat) by (apply Nat.mod_upper_bound; lia).
  rewrite nat_ascii_embedding by lia.
  destruct (n mod 10)%nat as [| [| [| [| [| [| [| [| [| [| k]]]]]]]]]];
    reflexivity.
Qed.

Lemma strip_six (c1 c2 c3 c4 c5 c6 : ascii) :
  is_space c1 = false -> is_space c6 = false ->
  strip (String c1 (String c2 (String c3 (String c4 (String c5
           (String c6 EmptyString))))))
  = String c1 (String c2 (String c3 (String c4 (String c5
      (String c6 EmptyString))))).
Proof.
  intros H1 H6. unfold strip. simpl. rewrite H1. simpl. rewrite H6. reflexivity.
Qed.

Lemma strip_next_month (d : date) : strip (next_month d) = next_month d.
Proof.
  unfold next_month, strftime_Ym. apply strip_six; apply is_space_digit.
Qed.




Lemma one_record_per_code_witness :
  exists records,
    process_one_day no_text no_text no_history intrinsic_call intrinsic_put
      no_inversion (Some (chain_far ++ chain_five)) "2025-10-08" trade_day
    = Ok records
    /\ NoDup (map rec_code records).
Proof.
  eexists.
  assert (E : process_one_day no_text no_text no_history intrinsic_call
                intrinsic_put no_inversion (Some (chain_far ++ chain_five))
                "2025-10-08" trade_day = Ok _) by (vm_compute; reflexivity).
  split; [exact E |].
  apply (one_record_per_code _ _ _ _ _ _ _ _ _ _ E).
Defined.

Lemma spot_resolution_cases_witness :
  resolve_spot no_text quoted_history (quote "202511" 90 100) "7203" trade_day
  = Some 100.
Proof.
  destruct (spot_resolution_cases no_text quoted_history
              (quote "202511" 90 100) "7203" trade_day) as [H _].
  apply H; reflexivity.
Defined.


Lemma price_source_answer_witness :
  exists pre b post,
    quoted_history "7203" trade_day = Ok (pre ++ b :: post)
    /\ bar_close b = 2500
    /\ date_leb (bar_index b) trade_day = true
    /\ Forall (fun b' => date_leb (bar_index b') trade_day = false) post
    /\ (Sorted.StronglySorted
          (fun x y => date_leb (bar_index x) (bar_index y) = true)
          (pre ++ b :: post) ->
        forall b', In b' pre -> date_leb (bar_index b') (bar_index b) = true).
Proof.
  destruct (price_source_answer quoted_history "7203" trade_day) as [H _].
  apply H. vm_compute. reflexivity.
Defined.

End DayExtra.

(** ** Properties of the run driver *)

Module DriverFacts.

Import Day Driver FloatOrder DayFacts DayExtra.

(** *** The calendar *)

Lemma is_valid_date_iff (d : date) :
  is_valid_date d = true <->
  (1 <= month d <= 12 /\ 1 <= day d <= days_in_month (year d) (month d))%nat.
Proof.
  unfold is_valid_date. rewrite !andb_true_iff, !Nat.leb_le. tauto.
Qed.

Lemma days_in_month_bounds (y m : nat) : (28 <= days_in_month y m <= 31)%nat.
Proof.
  unfold days_in_month.
  destruct m as [| [| [| [| [| [| [| [| [| [| [| [| m]]]]]]]]]]]];
    try destruct (is_leap y); lia.
Qed.

Lemma next_day_valid (d : date) :
  is_valid_date d = true -> is_valid_date (next_day d) = true.
Proof.
  rewrite !is_valid_date_iff. intros [Hm Hd]. unfold next_day.
  destruct (day d <? days_in_month (year d) (month d))%nat eqn:E1.
  - apply Nat.ltb_lt in E1. simpl. lia.
  - destruct (month d <? 12)%nat eqn:E2; simpl.
    + apply Nat.ltb_lt in E2.
      pose proof (days_in_month_bounds (year d) (month d + 1)). lia.
    + pose proof (days_in_month_bounds (year d + 1) 1). lia.
Qed.

Lemma day_stamp_next_day (d : date) :
  is_valid_date d = true -> (day_stamp d < day_stamp (next_day d))%nat.
Proof.
  rewrite is_valid_date_iff. intros [Hm Hd].
  pose proof (days_in_month_bounds (year d) (month d)). unfold next_day, day_stamp.
  destruct (day d <? days_in_month (year d) (month d))%nat eqn:E1; simpl; [lia |].
  destruct (month d <? 12)%nat eqn:E2; simpl; [lia |].
  apply Nat.ltb_ge in E2. lia.
Qed.

Lemma date_leb_stamp (a b : date) :
  is_valid_date a = true -> is_valid_date b = true ->
  (date_leb a b = true <-> (day_stamp a <= day_stamp b)%nat).
Proof.
  rewrite !is_valid_date_iff. intros [Ham Had] [Hbm Hbd].
  pose proof (days_in_month_bounds (year a) (month a)).
  pose proof (days_in_month_bounds (year b) (month b)).
  unfold date_leb, day_stamp.
  rewrite !orb_true_iff, !andb_true_iff, !orb_true_iff, !andb_true_iff,
    !Nat.ltb_lt, !Nat.eqb_eq, Nat.leb_le.
  lia.
Qed.

Lemma day_stamp_inj (a b : date) :
  is_valid_date a = true -> is_valid_date b = true ->
  day_stamp a = day_stamp b -> a = b.
Proof.
  rewrite !is_valid_date_iff. intros [Ham Had] [Hbm Hbd].
  pose proof (days_in_month_bounds (year a) (month a)).
  pose proof (days_in_month_bounds (year b) (month b)).
  unfold day_stamp. destruct a as [ya ma da], b as [yb mb db]. simpl in *.
  intros E. assert (ya = yb) by lia. assert (ma = mb) by lia.
  assert (da = db) by lia. subst. reflexivity.
Qed.

(** [next_day] is the successor among the valid dates. *)
Lemma next_day_least (d e : date) :
  is_valid_date d = true -> is_valid_date e = true ->
  (day_stamp d < day_stamp e)%nat ->
  (day_stamp (next_day d) <= day_stamp e)%nat.
Proof.
  rewrite !is_valid_date_iff. intros [Hdm Hdd] [Hem Hed].
  pose proof (days_in_month_bounds (year d) (month d)).
  pose proof (days_in_month_bounds (year e) (month e)).
  unfold next_day, day_stamp.
  destruct (day d <? days_in_month (year d) (month d))%nat eqn:E1; simpl; [lia |].
  apply Nat.ltb_ge in E1.
  destruct (Nat.eq_dec (year e) (year d)) as [Ey | Ey];
    destruct (Nat.eq_dec (month e) (month d)) as [Em | Em];
    destruct (month d <? 12)%nat eqn:E2; simpl;
    try apply Nat.ltb_lt in E2; try apply Nat.ltb_ge in E2;
    try rewrite Ey in *; try rewrite Em in *; lia.
Qed.

Lemma days_from_in (fuel : nat) (d today e : date) :
  is_valid_date d = true -> is_valid_date today = true ->
  (day_stamp today + 1 - day_stamp d <= fuel)%nat ->
  (In e (days_from fuel d today) <->
   is_valid_date e = true
   /\ (day_stamp d <= day_stamp e <= day_stamp today)%nat).
Proof.
  revert d. induction fuel as [| fuel IH]; intros d Hd Ht Hfuel; simpl.
  - split; [contradiction | lia].
  - destruct (date_leb d today) eqn:E.
    + apply (date_leb_stamp d today Hd Ht) in E.
      pose proof (day_stamp_next_day d Hd) as Hlt.
      simpl. rewrite (IH (next_day d) (next_day_valid d Hd) Ht) by lia.
      split.
      * intros [<- | [He Hr]]; [split; [exact Hd | lia] | split; [exact He | lia]].
      * intros [He Hr].
        destruct (Nat.eq_dec (day_stamp d) (day_stamp e)) as [Heq | Hne].
        -- left. apply day_stamp_inj; assumption.
        -- right. split; [exact He |].
           pose proof (next_day_least d e Hd He). lia.
    + assert (Hgt : ~ (day_stamp d <= day_stamp today)%nat).
      { intros H. apply (date_leb_stamp d today Hd Ht) in H. congruence. }
      split; [contradiction | lia].
Qed.

Lemma days_from_sorted (fuel : nat) (d today : date) :
  is_valid_date d = true ->
  StronglySorted (fun a b => (day_stamp a < day_stamp b)%nat)
    (days_from fuel d today)
  /\ Forall (fun e => (day_stamp d <= day_stamp e)%nat /\ is_valid_date e = true)
       (days_from fuel d today).
Proof.
  revert d. induction fuel as [| fuel IH]; intros d Hd; simpl.
  - split; constructor.
  - destruct (date_leb d today); [| split; constructor].
    destruct (IH (next_day d) (next_day_valid d Hd)) as [Hs Hf].
    pose proof (day_stamp_next_day d Hd) as Hlt.
    split.
    + constructor; [exact Hs |].
      eapply Forall_impl; [| exact Hf]. intros e [He _]. simpl in He. lia.
    + constructor; [split; [lia | exact Hd] |].
      eapply Forall_impl; [| exact Hf]. intros e [He Hv]. split; [lia | exact Hv].
Qed.

Lemma strongly_sorted_filter {A : Type} (R : A -> A -> Prop) (f : A -> bool)
    (l : list A) :
  StronglySorted R l -> StronglySorted R (filter f l).
Proof.
  induction 1 as [| a l Hs IH Hf]; simpl; [constructor |].
  destruct (f a); [| exact IH].
  constructor; [exact IH |].
  apply Forall_forall. intros x Hx. apply filter_In in Hx.
  rewrite Forall_forall in Hf. apply Hf, Hx.
Qed.

(** *** The labels of a date *)

Lemma digit_inj (a b : nat) : digit a = digit b -> (a mod 10 = b mod 10)%nat.
Proof.
  unfold digit. intros H. apply (f_equal nat_of_ascii) in H.
  assert (a mod 10 < 10)%nat by (apply Nat.mod_upper_bound; lia).
  assert (b mod 10 < 10)%nat by (apply Nat.mod_upper_bound; lia).
  rewrite !nat_ascii_embedding in H by lia. lia.
Qed.

Lemma decimal4 (y : nat) :
  (y < 100 * 100)%nat ->
  (y = 1000 * ((y / 1000) mod 10) + 100 * ((y / 100) mod 10)
       + 10 * ((y / 10) mod 10) + y mod 10)%nat.
Proof.
  intros H.
  assert (E100 : (y / 100 = y / 10 / 10)%nat)
    by (rewrite Nat.Div0.div_div; reflexivity).
  assert (E1000 : (y / 1000 = y / 10 / 10 / 10)%nat)
    by (rewrite !Nat.Div0.div_div; reflexivity).
  rewrite E100, E1000.
  pose proof (Nat.div_mod_eq y 10). pose proof (Nat.div_mod_eq (y / 10) 10).
  pose proof (Nat.div_mod_eq (y / 10 / 10) 10).
  assert (y / 10 / 10 / 10 < 10)%nat.
  { rewrite <- E1000. apply Nat.Div0.div_lt_upper_bound. exact H. }
  rewrite (Nat.mod_small (y / 10 / 10 / 10) 10) by lia.
  lia.
Qed.

Lemma decimal2 (n : nat) :
  (n < 100)%nat -> (n = 10 * ((n / 10) mod 10) + n mod 10)%nat.
Proof.
  intros H. pose proof (Nat.div_mod_eq n 10).
  assert (n / 10 < 10)%nat by (apply Nat.Div0.div_lt_upper_bound; simpl; lia).
  rewrite (Nat.mod_small (n / 10) 10) by lia. lia.
Qed.

Lemma String_inj (c c' : ascii) (s s' : string) :
  String c s = String c' s' -> c = c' /\ s = s'.
Proof. intros H. injection H as -> ->. split; reflexivity. Qed.

Ltac split_string H :=
  repeat (let H1 := fresh "Hc" in
          apply String_inj in H; destruct H as [H1 H];
          apply digit_inj in H1 || clear H1).

Lemma four_digits_inj (a b : nat) :
  (a < 100 * 100)%nat -> (b < 100 * 100)%nat ->
  four_digits a = four_digits b -> a = b.
Proof.
  intros Ha Hb H. unfold four_digits in H. split_string H.
  pose proof (decimal4 a Ha) as Ea. pose proof (decimal4 b Hb) as Eb.
  congruence.
Qed.

Lemma two_digits_inj (a b : nat) :
  (a < 100)%nat -> (b < 100)%nat -> two_digits a = two_digits b -> a = b.
Proof.
  intros Ha Hb H. unfold two_digits in H. split_string H.
  pose proof (decimal2 a Ha) as Ea. pose proof (decimal2 b Hb) as Eb.
  congruence.
Qed.

Lemma strftime_Y_m_d_parts (d : date) :
  strftime_Y_m_d d
  = String (digit (year d / 1000)) (String (digit (year d / 100))
      (String (digit (year d / 10)) (String (digit (year d))
        (String "-" (String (digit (month d / 10)) (String (digit (month d))
          (String "-" (String (digit (day d / 10)) (String (digit (day d))
            EmptyString))))))))).
Proof. reflexivity. Qed.

Lemma strftime_Ymd_parts (d : date) :
  strftime_Ymd d
  = String (digit (year d / 1000)) (String (digit (year d / 100))
      (String (digit (year d / 10)) (String (digit (year d))
        (String (digit (month d / 10)) (String (digit (month d))
          (String (digit (day d / 10)) (String (digit (day d))
            EmptyString))))))).
Proof. reflexivity. Qed.

Definition small_date (d : date) : Prop :=
  (year d < 100 * 100 /\ month d < 100 /\ day d < 100)%nat.

Lemma date_of_digits (a b : date) :
  small_date a -> small_date b ->
  four_digits (year a) = four_digits (year b) ->
  two_digits (month a) = two_digits (month b) ->
  two_digits (day a) = two_digits (day b) ->
  a = b.
Proof.
  intros (Ha1 & Ha2 & Ha3) (Hb1 & Hb2 & Hb3) Y M D.
  apply four_digits_inj in Y; try assumption.
  apply two_digits_inj in M; try assumption.
  apply two_digits_inj in D; try assumption.
  destruct a, b. simpl in *. congruence.
Qed.

Lemma String_eq (c c' : ascii) (s s' : string) :
  c = c' -> s = s' -> String c s = String c' s'.
Proof. intros -> ->. reflexivity. Qed.

Lemma strftime_Y_m_d_inj (a b : date) :
  small_date a -> small_date b ->
  strftime_Y_m_d a = strftime_Y_m_d b -> a = b.
Proof.
  intros Ha Hb H. rewrite !strftime_Y_m_d_parts in H.
  apply String_inj in H; destruct H as [Y1 H].
  apply String_inj in H; destruct H as [Y2 H].
  apply String_inj in H; destruct H as [Y3 H].
  apply String_inj in H; destruct H as [Y4 H].
  apply String_inj in H; destruct H as [_ H].
  apply String_inj in H; destruct H as [M1 H].
  apply String_inj in H; destruct H as [M2 H].
  apply String_inj in H; destruct H as [_ H].
  apply String_inj in H; destruct H as [D1 H].
  apply String_inj in H; destruct H as [D2 _].
  apply date_of_digits; try assumption; unfold four_digits, two_digits;
    repeat (apply String_eq; [assumption |]); reflexivity.
Qed.

Lemma strftime_Ymd_inj (a b : date) :
  small_date a -> small_date b ->
  strftime_Ymd a = strftime_Ymd b -> a = b.
Proof.
  intros Ha Hb H. rewrite !strftime_Ymd_parts in H.
  apply String_inj in H; destruct H as [Y1 H].
  apply String_inj in H; destruct H as [Y2 H].
  apply String_inj in H; destruct H as [Y3 H].
  apply String_inj in H; destruct H as [Y4 H].
  apply String_inj in H; destruct H as [M1 H].
  apply String_inj in H; destruct H as [M2 H].
  apply String_inj in H; destruct H as [D1 H].
  apply String_inj in H; destruct H as [D2 _].
  apply date_of_digits; try assumption; unfold four_digits, two_digits;
    repeat (apply String_eq; [assumption |]); reflexivity.
Qed.

Lemma valid_small (d : date) :
  is_valid_date d = true -> (year d < 100 * 100)%nat -> small_date d.
Proof.
  rewrite is_valid_date_iff. intros [Hm Hd] Hy.
  pose proof (days_in_month_bounds (year d) (month d)).
  unfold small_date. lia.
Qed.

(** *** Lists *)

Lemma filter_first {A : Type} (f : A -> bool) (l : list A) (x : A)
    (rest : list A) :
  filter f l = x :: rest ->
  exists pre post,
    l = pre ++ x :: post /\ f x = true /\ Forall (fun y => f y = false) pre.
Proof.
  induction l as [| h t IH]; simpl; [discriminate |].
  destruct (f h) eqn:E.
  - intros H. injection H as -> _. exists [], t.
    split; [reflexivity | split; [exact E | constructor]].
  - intros H. destruct (IH H) as (pre & post & -> & Hx & Hpre).
    exists (h :: pre), post.
    split; [reflexivity | split; [exact Hx | constructor; assumption]].
Qed.

Lemma filter_first_inv {A : Type} (f : A -> bool) (pre post : list A) (x : A) :
  f x = true -> Forall (fun y => f y = false) pre ->
  exists rest, filter f (pre ++ x :: post) = x :: rest.
Proof.
  intros Hx Hpre. induction Hpre as [| h t Hh Ht IH]; simpl.
  - rewrite Hx. eexists. reflexivity.
  - rewrite Hh. exact IH.
Qed.

Lemma find_first {A : Type} (p : A -> bool) (l : list A) (x : A) :
  find p l = Some x <->
  exists pre post,
    l = pre ++ x :: post /\ p x = true /\ Forall (fun y => p y = false) pre.
Proof.
  split.
  - induction l as [| h t IH]; simpl; [discriminate |].
    destruct (p h) eqn:E.
    + intros H. injection H as ->. exists [], t.
      split; [reflexivity | split; [exact E | constructor]].
    + intros H. destruct (IH H) as (pre & post & -> & Hx & Hpre).
      exists (h :: pre), post.
      split; [reflexivity | split; [exact Hx | constructor; assumption]].
  - intros (pre & post & -> & Hx & Hpre).
    induction Hpre as [| h t Hh Ht IH]; simpl.
    + rewrite Hx. reflexivity.
    + rewrite Hh. exact IH.
Qed.

Lemma find_rev_last {A : Type} (p : A -> bool) (l : list A) (x : A) :
  find p (rev l) = Some x <->
  exists pre post,
    l = pre ++ x :: post /\ p x = true /\ Forall (fun y => p y = false) post.
Proof.
  rewrite find_first. split.
  - intros (pre & post & E & Hx & Hpre).
    exists (rev post), (rev pre). split; [| split; [exact Hx |]].
    + rewrite <- (rev_involutive l), E, rev_app_distr. simpl.
      rewrite <- app_assoc. reflexivity.
    + apply Forall_rev, Hpre.
  - intros (pre & post & -> & Hx & Hpost).
    exists (rev post), (rev pre). split; [| split; [exact Hx |]].
    + rewrite rev_app_distr. simpl. rewrite <- app_assoc. reflexivity.
    + apply Forall_rev, Hpost.
Qed.

Lemma flat_map_nil {A B : Type} (f : A -> list B) (l : list A) :
  (forall x, In x l -> f x = []) -> flat_map f l = [].
Proof.
  induction l as [| h t IH]; intros H; [reflexivity |].
  simpl. rewrite (H h (or_introl eq_refl)). apply IH.
  intros x Hx. apply H. right. exact Hx.
Qed.

Lemma nodup_flat_map_keys {A B K : Type} (f : A -> list B) (key : B -> K)
    (l : list A) :
  NoDup l ->
  (forall a, In a l -> NoDup (map key (f a))) ->
  (forall a b x y, In a l -> In b l -> In x (f a) -> In y (f b) ->
     key x = key y -> a = b) ->
  NoDup (map key (flat_map f l)).
Proof.
  induction 1 as [| h t Hh Ht IH]; intros Hn Hk; [constructor |].
  simpl. rewrite map_app. apply NoDup_app.
  - apply Hn. left. reflexivity.
  - apply IH.
    + intros a Ha. apply Hn. right. exact Ha.
    + intros a b x y Ha Hb. apply Hk; right; assumption.
  - intros k Hk1 Hk2.
    apply in_map_iff in Hk1. destruct Hk1 as [x [Ex Hx]].
    apply in_map_iff in Hk2. destruct Hk2 as [y [Ey Hy]].
    apply in_flat_map in Hy. destruct Hy as [b [Hb Hy]].
    assert (h = b).
    { apply (Hk h b x y); [left; reflexivity | right; exact Hb | exact Hx
                           | exact Hy | congruence]. }
    subst b. contradiction.
Qed.

Lemma nodup_map_pair {A B C : Type} (f : A -> B) (g : A -> C) (l : list A) :
  NoDup (map g l) -> NoDup (map (fun x => (f x, g x)) l).
Proof.
  induction l as [| h t IH]; simpl; intros H; [constructor |].
  inversion H as [| c cs Hc Hcs]; subst. constructor; [| apply IH, Hcs].
  intros Hin. apply in_map_iff in Hin. destruct Hin as [x [Ex Hx]].
  apply Hc, in_map_iff. exists x. split; [congruence | exact Hx].
Qed.

Lemma strongly_sorted_nodup {A : Type} (R : A -> A -> Prop) (l : list A) :
  (forall x, ~ R x x) -> StronglySorted R l -> NoDup l.
Proof.
  intros Hirr. induction 1 as [| a l Hs IH Hf]; constructor; [| exact IH].
  intros Hin. rewrite Forall_forall in Hf. exact (Hirr a (Hf a Hin)).
Qed.

(** *** Strings *)

Lemma append_inj_l (p a b : string) : (p ++ a = p ++ b -> a = b)%string.
Proof.
  induction p as [| c p IH]; simpl; intros H; [exact H |].
  apply String_inj in H. apply IH, H.
Qed.

Lemma append_inj_r (a b s : string) :
  String.length a = String.length b -> (a ++ s = b ++ s -> a = b)%string.
Proof.
  revert b. induction a as [| c a IH]; intros [| c' b]; simpl;
    try discriminate; intros Hl H; [reflexivity |].
  apply String_inj in H. destruct H as [-> H].
  f_equal. apply IH; [lia | exact H].
Qed.

Lemma strftime_Ymd_length (d : date) : String.length (strftime_Ymd d) = 8%nat.
Proof. reflexivity. Qed.

Lemma url_inj (a b : date) :
  small_date a -> small_date b ->
  ZIP_URL_TEMPLATE (strftime_Ymd a) = ZIP_URL_TEMPLATE (strftime_Ymd b) ->
  a = b.
Proof.
  intros Ha Hb H. unfold ZIP_URL_TEMPLATE in H.
  apply append_inj_l in H. apply append_inj_r in H.
  - apply strftime_Ymd_inj; assumption.
  - rewrite !strftime_Ymd_length. reflexivity.
Qed.

(** *** The business days of a run *)

Lemma bdate_range_in (start today d : date) :
  is_valid_date start = true -> is_valid_date today = true ->
  (In d (bdate_range start today) <->
   is_valid_date d = true /\ date_leb start d = true
   /\ date_leb d today = true /\ is_business_day d = true).
Proof.
  intros Hs Ht. unfold bdate_range.
  rewrite filter_In, (days_from_in _ start today d Hs Ht) by lia.
  split.
  - intros [[Hd [H1 H2]] Hb]. repeat split; try assumption.
    + apply (date_leb_stamp start d Hs Hd), H1.
    + apply (date_leb_stamp d today Hd Ht), H2.
  - intros (Hd & H1 & H2 & Hb). repeat split; try assumption.
    + apply (date_leb_stamp start d Hs Hd), H1.
    + apply (date_leb_stamp d today Hd Ht), H2.
Qed.

Lemma bdate_range_sorted (start today : date) :
  is_valid_date start = true ->
  StronglySorted (fun a b => (day_stamp a < day_stamp b)%nat)
    (bdate_range start today).
Proof.
  intros Hs. apply strongly_sorted_filter, days_from_sorted, Hs.
Qed.

Lemma bdate_range_nodup (start today : date) :
  is_valid_date start = true -> NoDup (bdate_range start today).
Proof.
  intros Hs. eapply strongly_sorted_nodup; [| apply bdate_range_sorted, Hs].
  intros x. apply Nat.lt_irrefl.
Qed.

Lemma start_date_valid : is_valid_date start_date = true.
Proof. reflexivity. Qed.

Lemma stamp_year (d today : date) :
  is_valid_date d = true -> is_valid_date today = true ->
  (day_stamp d <= day_stamp today)%nat -> (year d <= year today)%nat.
Proof.
  rewrite !is_valid_date_iff. intros [Hm Hd] [Htm Htd].
  pose proof (days_in_month_bounds (year d) (month d)).
  pose proof (days_in_month_bounds (year today) (month today)).
  unfold day_stamp. lia.
Qed.

(** *** Fetching a day and running *)

Lemma first_name_first_csv (names : list string) (name : string) :
  first_name (filter (fun n => endswith n ".csv") names) = Ok name <->
  first_csv names name.
Proof.
  unfold first_name, first_csv. split.
  - destruct (filter (fun n => endswith n ".csv") names) as [| n rest] eqn:E;
      [discriminate |].
    intros H. injection H as ->. apply (filter_first _ _ _ _ E).
  - intros (pre & post & -> & Hn & Hpre).
    destruct (filter_first_inv (fun n => endswith n ".csv") pre post name Hn Hpre)
      as [rest ->].
    reflexivity.
Qed.

Lemma zip_open_last_member {file : Type} (z : list (string * file))
    (name : string) (f : file) :
  zip_open file z name = Ok f <-> last_member z name f.
Proof.
  unfold zip_open, last_member. split.
  - destruct (find (fun m => (fst m =? name)%string) (rev z)) as [m |] eqn:E;
      [| discriminate].
    intros H. injection H as <-.
    apply find_rev_last in E. destruct E as (pre & post & -> & Hm & Hpost).
    apply String.eqb_eq in Hm. exists pre, post. split.
    + destruct m as [n f']. simpl in Hm. subst n. reflexivity.
    + eapply Forall_impl; [| exact Hpost]. intros m' Hm'.
      apply String.eqb_neq, Hm'.
  - intros (pre & post & -> & Hpost).
    assert (E : find (fun m => (fst m =? name)%string)
                  (rev (pre ++ (name, f) :: post)) = Some (name, f)).
    { apply find_rev_last. exists pre, post.
      split; [reflexivity | split; [apply String.eqb_refl |]].
      eapply Forall_impl; [| exact Hpost]. intros m' Hm'.
      apply String.eqb_neq, Hm'. }
    rewrite E. reflexivity.
Qed.

Section Run.

Variable float_of_str : string -> option float.
Variable numeric_of_str : string -> option float.
Variable yf_history : string -> date -> result (list bar).
Variable bs_call_price bs_put_price :
  float -> float -> float -> float -> float -> result (option float).
Variable implied_vol_put :
  float -> float -> float -> float -> float -> result (option float).
Variable content : Type.
Variable file : Type.
Variable requests_get : string -> result (response content).
Variable zip_file : content -> result (list (string * file)).
Variable read_jpx_csv : file -> result (list row).

Local Abbreviation process_code :=
  (process_code float_of_str numeric_of_str yf_history
     bs_call_price bs_put_price implied_vol_put).
Local Abbreviation records_of :=
  (records_of float_of_str numeric_of_str yf_history
     bs_call_price bs_put_price implied_vol_put).
Local Abbreviation has_record :=
  (has_record float_of_str numeric_of_str yf_history
     bs_call_price bs_put_price implied_vol_put).
Local Abbreviation fetch_and_process_day :=
  (fetch_and_process_day float_of_str numeric_of_str yf_history
     bs_call_price bs_put_price implied_vol_put
     content file requests_get zip_file read_jpx_csv).
Local Abbreviation fetched :=
  (fetched content file requests_get zip_file read_jpx_csv).
Local Abbreviation main :=
  (main float_of_str numeric_of_str yf_history
     bs_call_price bs_put_price implied_vol_put
     content file requests_get zip_file read_jpx_csv).

Lemma fetch_cases (d : date) :
  fetch_and_process_day d = []
  \/ exists df,
       fetched d df
       /\ fetch_and_process_day d
          = flat_map (records_of df (strftime_Y_m_d d) d) TARGET_CODES.
Proof.
  unfold Driver.fetch_and_process_day.
  destruct (requests_get (ZIP_URL_TEMPLATE (strftime_Ymd d))) as [resp | e]
    eqn:Eg; cbn [bind try_except negb]; [| left; reflexivity].
  destruct (status_code content resp =? 200)%Z eqn:Es; cbn [bind try_except negb];
    [| left; reflexivity].
  apply Z.eqb_eq in Es.
  destruct (zip_file (resp_content content resp)) as [z | e] eqn:Ez; cbn [bind try_except negb];
    [| left; reflexivity].
  destruct (first_name (filter (fun n => endswith n ".csv") (map fst z)))
    as [name | e] eqn:En; cbn [bind try_except negb]; [| left; reflexivity].
  destruct (zip_open file z name) as [f | e] eqn:Ef; cbn [bind try_except negb];
    [| left; reflexivity].
  destruct (read_jpx_csv f) as [df | e] eqn:Er; cbn [bind try_except negb]; [| left; reflexivity].
  right. exists df. split.
  - exists resp, z, name, f.
    split; [exact Eg |]. split; [exact Es |]. split; [exact Ez |].
    split; [apply first_name_first_csv, En |].
    split; [apply zip_open_last_member, Ef | exact Er].
  - unfold Day.process_one_day. rewrite process_codes_flat_map. reflexivity.
Qed.

Lemma fetched_records (d : date) (df : list row) :
  fetched d df ->
  fetch_and_process_day d
  = flat_map (records_of df (strftime_Y_m_d d) d) TARGET_CODES.
Proof.
  intros (resp & z & name & f & Hr & Hs & Hz & Hn & Hf & Hd).
  unfold Driver.fetch_and_process_day. rewrite Hr. cbn [bind try_except negb].
  rewrite Hs. cbn [bind try_except negb Z.eqb Pos.eqb]. rewrite Hz. cbn [bind try_except negb].
  apply first_name_first_csv in Hn. rewrite Hn. cbn [bind try_except negb].
  apply zip_open_last_member in Hf. rewrite Hf. cbn [bind try_except negb].
  rewrite Hd. cbn [bind try_except negb process_one_day]. rewrite process_codes_flat_map. reflexivity.
Qed.

Lemma records_of_in (df : list row) (s : string) (d : date) (code : string)
    (rec : record) :
  In rec (records_of df s d code) ->
  rec_trade_date_str rec = s /\ rec_code rec = code
  /\ rec_next_month rec = next_month d.
Proof.
  unfold DayFacts.records_of.
  destruct (process_code df s d code) as [[rec' |] | e] eqn:E; simpl;
    try contradiction.
  intros [<- | []].
  destruct (process_code_some_inv _ _ _ _ _ _ _ _ _ _ _ E)
    as (first & rest & spot & call_row & put_row & _ & _ & _ & _ & _ & _ & ->).
  simpl. repeat split; reflexivity.
Qed.

Lemma fetch_label (d : date) (rec : record) :
  In rec (fetch_and_process_day d) ->
  rec_trade_date_str rec = strftime_Y_m_d d
  /\ In (rec_code rec) TARGET_CODES
  /\ rec_next_month rec = next_month d.
Proof.
  destruct (fetch_cases d) as [-> | [df [_ ->]]]; [contradiction |].
  intros Hin. apply in_flat_map in Hin. destruct Hin as [code [Hc Hin]].
  apply records_of_in in Hin. destruct Hin as (H1 & H2 & H3).
  rewrite H2. repeat split; assumption.
Qed.

Lemma fetch_codes_nodup (d : date) :
  NoDup (map rec_code (fetch_and_process_day d)).
Proof.
  destruct (fetch_cases d) as [-> | [df [_ ->]]]; [constructor |].
  rewrite records_codes. apply NoDup_filter, nodup_target_codes.
Qed.

Lemma missing_days_in (existing_dates : list string) (all_days : list date)
    (d : date) :
  In d (missing_days existing_dates all_days) <->
  In d all_days /\ ~ In (strftime_Y_m_d d) existing_dates.
Proof.
  unfold missing_days. rewrite filter_In, negb_true_iff.
  split; intros [H1 H2]; (split; [exact H1 |]).
  - intros Hin. assert (E : existsb (String.eqb (strftime_Y_m_d d)) existing_dates = true).
    { apply existsb_exists. exists (strftime_Y_m_d d).
      split; [exact Hin | apply String.eqb_refl]. }
    congruence.
  - destruct (existsb (String.eqb (strftime_Y_m_d d)) existing_dates) eqn:E;
      [| reflexivity].
    apply existsb_exists in E. destruct E as [s [Hs Heq]].
    apply String.eqb_eq in Heq. subst s. contradiction.
Qed.

(** X12. [fetch_and_process_day] answers with no record at all whenever a
    step of the download fails: the request raises, the status is not 200,
    the archive cannot be opened, the archive has no member whose name
    ends in [.csv], or the member cannot be read as a chain. *)
Theorem fetch_failure_yields_nothing (d : date) :
  let url := ZIP_URL_TEMPLATE (strftime_Ymd d) in
  (forall e, requests_get url = Raise e -> fetch_and_process_day d = [])
  /\ (forall resp, requests_get url = Ok resp ->
        status_code content resp <> 200%Z -> fetch_and_process_day d = [])
  /\ (forall resp e, requests_get url = Ok resp ->
        zip_file (resp_content content resp) = Raise e ->
        fetch_and_process_day d = [])
  /\ (forall resp z, requests_get url = Ok resp ->
        zip_file (resp_content content resp) = Ok z ->
        Forall (fun m => endswith (fst m) ".csv" = false) z ->
        fetch_and_process_day d = [])
  /\ (forall resp z name f e, requests_get url = Ok resp ->
        zip_file (resp_content content resp) = Ok z ->
        first_csv (map fst z) name -> last_member z name f ->
        read_jpx_csv f = Raise e ->
        fetch_and_process_day d = []).
Proof.
  intros url. subst url. unfold Driver.fetch_and_process_day.
  repeat split.
  - intros e ->. reflexivity.
  - intros resp -> Hs. cbn [bind try_except].
    destruct (Z.eqb_spec (status_code content resp) 200) as [E | _];
      [contradiction | reflexivity].
  - intros resp e -> Hz. cbn [bind try_except]. rewrite Hz.
    destruct (status_code content resp =? 200)%Z; reflexivity.
  - intros resp z -> Hz Hall. cbn [bind try_except]. rewrite Hz.
    assert (E : filter (fun n => endswith n ".csv") (map fst z) = []).
    { apply filter_nil_iff, Forall_map, Hall. }
    cbn [bind]. rewrite E.
    destruct (status_code content resp =? 200)%Z; reflexivity.
  - intros resp z name f e -> Hz Hn Hf Hr. cbn [bind try_except]. rewrite Hz.
    apply first_name_first_csv in Hn. apply zip_open_last_member in Hf.
    cbn [bind]. rewrite Hn. cbn [bind]. rewrite Hf. cbn [bind]. rewrite Hr.
    destruct (status_code content resp =? 200)%Z; reflexivity.
Qed.


(** X14. Every record of a run is dated on a Monday-to-Friday between the
    start date 2025-10-08 and today, both included, on a date the stored
    file does not hold yet; it carries that date's [%Y-%m-%d] label and
    next-month label, and a watchlist code. *)
Theorem main_records_dates (existing_dates : list string) (today : date)
    (rec : record) :
  is_valid_date today = true ->
  In rec (main existing_dates today) ->
  exists d,
    is_valid_date d = true
    /\ date_leb start_date d = true /\ date_leb d today = true
    /\ (weekday d < 5)%nat
    /\ ~ In (strftime_Y_m_d d) existing_dates
    /\ rec_trade_date_str rec = strftime_Y_m_d d
    /\ rec_next_month rec = next_month d
    /\ In (rec_code rec) TARGET_CODES.
Proof.
  intros Ht Hin. unfold Driver.main in Hin.
  apply in_flat_map in Hin. destruct Hin as [d [Hd Hin]].
  apply missing_days_in in Hd. destruct Hd as [Hd Hnew].
  apply (bdate_range_in start_date today d start_date_valid Ht) in Hd.
  destruct Hd as (Hv & H1 & H2 & Hb).
  apply fetch_label in Hin. destruct Hin as (Hl & Hc & Hn).
  exists d. unfold is_business_day in Hb. apply Nat.ltb_lt in Hb.
  exact (conj Hv (conj H1 (conj H2 (conj Hb (conj Hnew (conj Hl (conj Hn Hc))))))).
Qed.

(** X15. A run never writes a date the stored file already holds, and a
    second run on the same day, over the file the first run extended, adds
    nothing when the archive site and the price source answer as before:
    the days that gave records are skipped, the others give none again. *)
Theorem main_rerun_adds_nothing (existing_dates : list string) (today : date) :
  (forall rec, In rec (main existing_dates today) ->
     ~ In (rec_trade_date_str rec) existing_dates)
  /\ main (existing_dates
           ++ map rec_trade_date_str (main existing_dates today)) today
     = [].
Proof.
  split.
  - intros rec Hin. unfold Driver.main in Hin.
    apply in_flat_map in Hin. destruct Hin as [d [Hd Hin]].
    apply missing_days_in in Hd. destruct Hd as [_ Hnew].
    apply fetch_label in Hin. destruct Hin as [-> _]. exact Hnew.
  - unfold Driver.main at 1. apply flat_map_nil. intros d Hd.
    apply missing_days_in in Hd. destruct Hd as [Hd Hnew].
    destruct (fetch_and_process_day d) as [| rec recs] eqn:E; [reflexivity |].
    exfalso. apply Hnew, in_or_app.
    assert (Hrec : In rec (fetch_and_process_day d))
      by (rewrite E; left; reflexivity).
    destruct (fetch_label d rec Hrec) as [Hl _].
    destruct (in_dec string_dec (strftime_Y_m_d d) existing_dates)
      as [Hold | Hold]; [left; exact Hold | right].
    rewrite <- Hl. apply in_map. unfold Driver.main.
    apply in_flat_map. exists d. split; [| exact Hrec].
    apply missing_days_in. split; assumption.
Qed.

(** X16. The records of a run are keyed by date and code: no two of them
    share both, for any today up to the year 9999. *)
Theorem main_unique_keys (existing_dates : list string) (today : date) :
  is_valid_date today = true -> (year today < 100 * 100)%nat ->
  NoDup (map (fun rec => (rec_trade_date_str rec, rec_code rec))
           (main existing_dates today)).
Proof.
  intros Ht Hy. unfold Driver.main.
  assert (Hsmall : forall d,
            In d (missing_days existing_dates (bdate_range start_date today)) ->
            small_date d).
  { intros d Hd. apply missing_days_in in Hd. destruct Hd as [Hd _].
    apply (bdate_range_in start_date today d start_date_valid Ht) in Hd.
    destruct Hd as (Hv & _ & H2 & _).
    apply valid_small; [exact Hv |].
    apply (date_leb_stamp d today Hv Ht) in H2.
    pose proof (stamp_year d today Hv Ht H2). lia. }
  apply nodup_flat_map_keys.
  - apply NoDup_filter, bdate_range_nodup, start_date_valid.
  - intros d _. apply nodup_map_pair, fetch_codes_nodup.
  - intros a b x y Ha Hb Ix Iy Hk.
    apply fetch_label in Ix. apply fetch_label in Iy.
    destruct Ix as [Lx _]. destruct Iy as [Ly _].
    apply strftime_Y_m_d_inj; [apply Hsmall, Ha | apply Hsmall, Hb |].
    congruence.
Qed.

End Run.

(** X17. Two different dates of the years 1000 to 9999 have different
    [%Y-%m-%d] labels and different archive addresses. *)
Theorem labels_distinct (a b : date) :
  is_valid_date a = true -> is_valid_date b = true ->
  (1000 <= year a < 100 * 100)%nat -> (1000 <= year b < 100 * 100)%nat ->
  a <> b ->
  strftime_Y_m_d a <> strftime_Y_m_d b
  /\ ZIP_URL_TEMPLATE (strftime_Ymd a) <> ZIP_URL_TEMPLATE (strftime_Ymd b).
Proof.
  intros Ha Hb [_ Hya] [_ Hyb] Hne.
  pose proof (valid_small a Ha Hya) as Sa.
  pose proof (valid_small b Hb Hyb) as Sb.
  split; intros H; apply Hne.
  - apply strftime_Y_m_d_inj; assumption.
  - apply url_inj; assumption.
Qed.


(** *** A run on examples *)

Lemma fetch_failure_yields_nothing_witness :
  fetch_and_process_day no_text no_text no_history intrinsic_call
    intrinsic_put no_inversion unit (list row) not_found one_archive parsed
    trade_day = [].
Proof.
  destruct (fetch_failure_yields_nothing no_text no_text no_history
              intrinsic_call intrinsic_put no_inversion unit (list row)
              not_found one_archive parsed trade_day) as (_ & H & _).
  apply (H {| status_code := 404; resp_content := tt |});
    [reflexivity | discriminate].
Defined.


Lemma main_records_dates_witness :
  exists rec d,
    In rec (main no_text no_text no_history intrinsic_call intrinsic_put
              no_inversion unit (list row) answering one_archive parsed
              ["2025-10-08"%string] friday)
    /\ (weekday d < 5)%nat
    /\ ~ In (strftime_Y_m_d d) ["2025-10-08"%string]
    /\ rec_trade_date_str rec = strftime_Y_m_d d.
Proof.
  assert (E : exists rec recs,
            main no_text no_text no_history intrinsic_call intrinsic_put
              no_inversion unit (list row) answering one_archive parsed
              ["2025-10-08"%string] friday = rec :: recs)
    by (eexists; eexists; vm_compute; reflexivity).
  destruct E as (rec & recs & E).
  assert (Hin : In rec (main no_text no_text no_history intrinsic_call
                          intrinsic_put no_inversion unit (list row) answering
                          one_archive parsed ["2025-10-08"%string] friday))
    by (rewrite E; left; reflexivity).
  destruct (main_records_dates no_text no_text no_history intrinsic_call
              intrinsic_put no_inversion unit (list row) answering one_archive
              parsed ["2025-10-08"%string] friday rec eq_refl Hin)
    as (d & _ & _ & _ & Hw & Hnew & Hl & _).
  exists rec, d. exact (conj Hin (conj Hw (conj Hnew Hl))).
Defined.

Lemma main_rerun_adds_nothing_witness :
  main no_text no_text no_history intrinsic_call intrinsic_put no_inversion
    unit (list row) answering one_archive parsed
    ([] ++ map rec_trade_date_str
             (main no_text no_text no_history intrinsic_call intrinsic_put
                no_inversion unit (list row) answering one_archive parsed
                [] friday))
    friday
  = [].
Proof.
  exact (proj2 (main_rerun_adds_nothing no_text no_text no_history
                  intrinsic_call intrinsic_put no_inversion unit (list row)
                  answering one_archive parsed [] friday)).
Defined.

Lemma main_unique_keys_witness :
  NoDup (map (fun rec => (rec_trade_date_str rec, rec_code rec))
           (main no_text no_text no_history intrinsic_call intrinsic_put
              no_inversion unit (list row) answering one_archive parsed
              [] friday)).
Proof.
  apply main_unique_keys; [reflexivity |].
  apply Nat.ltb_lt. vm_compute. reflexivity.
Defined.

Lemma labels_distinct_witness :
  strftime_Y_m_d trade_day <> strftime_Y_m_d friday
  /\ ZIP_URL_TEMPLATE (strftime_Ymd trade_day)
     <> ZIP_URL_TEMPLATE (strftime_Ymd friday).
Proof.
  apply labels_distinct;
    [reflexivity | reflexivity
     | split; [apply Nat.leb_le | apply Nat.ltb_lt]; vm_compute; reflexivity
     | split; [apply Nat.leb_le | apply Nat.ltb_lt]; vm_compute; reflexivity
     | discriminate].
Defined.

End DriverFacts.

(** ** Properties of the dashboard's highlighting *)

Module DashboardFacts.

Import Dashboard FloatOrder.
Local Open Scope float_scope.

Lemma forall2_repeat {A : Type} (R : A -> A -> Prop) (a b : A) (n : nat) :
  R a b -> Forall2 R (repeat a n) (repeat b n).
Proof. intros H. induction n; simpl; constructor; assumption. Qed.

Lemma upper_band (v : float) : (0.30 <=? v) = true -> (0.25 <=? v) = true.
Proof. apply leb_trans. reflexivity. Qed.

(** X18. Row highlighting.  All the cells of a row get one style.  The
    style is the dark one exactly from 0.30 on and a coloured one exactly
    from 0.25 on, so of two rows the one of the larger volatility is never
    the weaker shade; a missing volatility and a NaN one leave the row
    unstyled. *)
Theorem highlight_iv_banding (n : nat) :
  (forall iv, exists style,
     highlight_iv iv n = repeat style n
     /\ (iv = None -> style = EmptyString)
     /\ (forall v, iv = Some v ->
           (shade style = 2%nat <-> (0.30 <=? v) = true)
           /\ ((1 <= shade style)%nat <-> (0.25 <=? v) = true)))
  /\ (forall iv1 iv2, (iv1 <=? iv2) = true ->
        Forall2 (fun s1 s2 => (shade s1 <= shade s2)%nat)
          (highlight_iv (Some iv1) n) (highlight_iv (Some iv2) n))
  /\ (forall v, is_nan v = true ->
        highlight_iv (Some v) n = highlight_iv None n).
Proof.
  split; [| split].
  - intros [v |]; simpl.
    + destruct (0.30 <=? v) eqn:E1.
      * eexists. split; [reflexivity |]. split; [discriminate |].
        intros v' H. injection H as <-. rewrite E1, (upper_band v E1).
        split; split; intros _; try reflexivity. cbv. lia.
      * destruct (0.25 <=? v) eqn:E2; eexists;
          (split; [reflexivity |]); (split; [discriminate |]);
          intros v' H; injection H as <-; rewrite E1, E2;
          split; split; intros H; try discriminate H; try reflexivity;
          cbv in H |- *; lia.
    + exists EmptyString. split; [reflexivity |]. split; [reflexivity |].
      intros v H. discriminate H.
  - intros iv1 iv2 Hle. simpl.
    destruct (0.30 <=? iv1) eqn:A1.
    + rewrite (leb_trans _ _ _ A1 Hle). apply forall2_repeat. cbv. lia.
    + destruct (0.25 <=? iv1) eqn:A2.
      * rewrite (leb_trans _ _ _ A2 Hle).
        destruct (0.30 <=? iv2); apply forall2_repeat; cbv; lia.
      * destruct (0.30 <=? iv2); [| destruct (0.25 <=? iv2)];
          apply forall2_repeat; cbv; lia.
  - intros v Hnan. simpl.
    destruct (0.30 <=? v) eqn:E1.
    { apply leb_not_nan in E1. destruct E1 as [_ E1]. congruence. }
    destruct (0.25 <=? v) eqn:E2.
    { apply leb_not_nan in E2. destruct E2 as [_ E2]. congruence. }
    reflexivity.
Qed.

Lemma highlight_iv_banding_witness :
  Forall2 (fun s1 s2 => (shade s1 <= shade s2)%nat)
    (highlight_iv (Some 0.26) 6) (highlight_iv (Some 0.31) 6)
  /\ highlight_iv (Some nan) 6 = highlight_iv None 6.
Proof.
  destruct (highlight_iv_banding 6) as (_ & H1 & H2).
  split; [apply H1; reflexivity | apply H2; reflexivity].
Defined.

End DashboardFacts.
